(** * ghinst: asset selection, archive extraction, install and purge

    A shallow embedding of the decision logic of [ghinst] (a command-line
    installer of binaries published as GitHub releases) together with the
    properties its design document states about it.

    Go values are modelled as follows: a [string] is a sequence of bytes
    (Rocq's [string], one [ascii] per byte, so [String.length] is Go's
    [len]); an [error] is a value of the inductive type [error] below, one
    constructor per [fmt.Errorf] call site; a function returning
    [(T, error)] returns a [result T]. Library calls whose inner working
    the program does not depend on ([sort.Slice], the archive readers, the
    operating-system calls of the installer) are parameters of the
    definitions that use them. *)

From Stdlib Require Import ZArith Ascii Sorting.Sorted.
From stdpp Require Import base option list sorting strings gmap.

Local Open Scope Z_scope.

(** ** Errors and results *)

Inductive error : Type :=
  | UnsupportedOS (goos : string)         (* "unsupported OS: %s" *)
  | UnsupportedArch (goarch : string)     (* "unsupported architecture: %s" *)
  | NoAssetFound (goos goarch : string)   (* "no asset found for %s/%s" *)
  | NoExecutable                          (* "no executable found in archive" *)
  | InvalidTarget (s : string)            (* "invalid target %q: expected owner/repo[@version]" *)
  | LibraryError (msg : string)           (* an error value produced by a library call *)
  | RuntimePanic (msg : string).          (* a run-time panic, e.g. index out of range *)

(** The error kinds of the design document. *)
Inductive ErrorKind : Type :=
  | UnsupportedPlatform | NoMatchingAsset | NoExecutableFound
  | InvalidTargetKind | OtherError.

Definition errorKind (e : error) : ErrorKind :=
  match e with
  | UnsupportedOS _ | UnsupportedArch _ => UnsupportedPlatform
  | NoAssetFound _ _ => NoMatchingAsset
  | NoExecutable => NoExecutableFound
  | InvalidTarget _ => InvalidTargetKind
  | LibraryError _ | RuntimePanic _ => OtherError
  end.

Inductive result (A : Type) : Type :=
  | Ok (a : A)
  | Err (e : error).
Arguments Ok {A} a.
Arguments Err {A} e.

Definition bytes := list Byte.byte.

(** ** The parts of Go's [strings] package the program calls *)

Module GoStrings.

Definition len (s : string) : nat := String.length s.

(** [s[i:j]] for [i <= j <= len s]. *)
Definition slice (s : string) (i j : nat) : string := String.substring i (j - i) s.

Definition HasPrefix (s p : string) : bool := String.prefix p s.

(** [strings.HasSuffix]: [len(s) >= len(suffix) && s[len(s)-len(suffix):] == suffix]. *)
Definition HasSuffix (s suffix : string) : bool :=
  (len suffix <=? len s)%nat &&
  String.eqb (slice s (len s - len suffix) (len s)) suffix.

(** [strings.Index]: position of the first occurrence of [substr] in [s];
    Go's [-1] is [None]. *)
Fixpoint Index (s substr : string) : option nat :=
  if HasPrefix s substr then Some 0%nat
  else match s with
       | EmptyString => None
       | String _ s' => S <$> Index s' substr
       end.

(** [strings.Contains]: [Index(s, substr) >= 0]. *)
Definition Contains (s substr : string) : bool :=
  match Index s substr with Some _ => true | None => false end.

(** [strings.Cut]. *)
Definition Cut (s sep : string) : string * string * bool :=
  match Index s sep with
  | Some i => (slice s 0 i, slice s (i + len sep) (len s), true)
  | None => (s, EmptyString, false)
  end.

(** The loop of [genSplit]: at most [k] further cuts. *)
Fixpoint splitLoop (k : nat) (s sep : string) : list string :=
  match k with
  | O => [s]
  | S k' =>
      match Index s sep with
      | None => [s]
      | Some m => slice s 0 m :: splitLoop k' (slice s (m + len sep) (len s)) sep
      end
  end.

(** [strings.SplitN] for a count [n >= 0] and a non-empty separator (the
    branch of [genSplit] for the empty separator, which splits into UTF-8
    sequences, is not needed by the program, whose separator is "/"). *)
Definition SplitN (s sep : string) (n : nat) : list string :=
  match n with
  | O => []
  | _ => splitLoop (Nat.min n (len s + 1) - 1) s sep
  end.

Definition isASCII (s : string) : bool :=
  forallb (λ c, (nat_of_ascii c <? 128)%nat) (String.list_ascii_of_string s).

Definition lowerByte (c : ascii) : ascii :=
  let n := nat_of_ascii c in
  if (65 <=? n)%nat && (n <=? 90)%nat then ascii_of_nat (n + 32) else c.

(** [strings.ToLower]. On a string of ASCII bytes it lowers ['A'..'Z']
    byte by byte; on any other string Go applies [unicode.ToLower] to
    every code point, which is the parameter [unicodeLower] here. *)
Definition ToLower (unicodeLower : string → string) (s : string) : string :=
  if isASCII s
  then String.string_of_list_ascii (map lowerByte (String.list_ascii_of_string s))
  else unicodeLower s.

End GoStrings.

(** ** The parts of [path/filepath] the program calls (Unix separators) *)

Module GoFilepath.

Definition IsPathSeparator (c : ascii) : bool := Ascii.eqb c "/"%char.

(** Drop the trailing separators of a reversed path. *)
Fixpoint dropSeparators (r : list ascii) : list ascii :=
  match r with
  | c :: r' => if IsPathSeparator c then dropSeparators r' else r
  | [] => []
  end.

(** The longest separator-free prefix of a reversed path, i.e. the last
    element of the path, reversed. *)
Fixpoint lastElement (r : list ascii) : list ascii :=
  match r with
  | c :: r' => if IsPathSeparator c then [] else c :: lastElement r'
  | [] => []
  end.

(** [filepath.Base]. *)
Definition Base (path : string) : string :=
  match path with
  | EmptyString => "."
  | _ =>
      let stripped := dropSeparators (rev (String.list_ascii_of_string path)) in
      match rev (lastElement stripped) with
      | [] => "/"
      | elem => String.string_of_list_ascii elem
      end
  end.

(** The scan of [filepath.Ext] over the reversed path: [acc] holds the
    bytes already passed, in path order. *)
Fixpoint extScan (r : list ascii) (acc : list ascii) : list ascii :=
  match r with
  | c :: r' =>
      if IsPathSeparator c then []
      else if Ascii.eqb c "."%char then c :: acc
      else extScan r' (c :: acc)
  | [] => []
  end.

(** [filepath.Ext]. *)
Definition Ext (path : string) : string :=
  String.string_of_list_ascii (extScan (rev (String.list_ascii_of_string path)) []).

End GoFilepath.

(** ** [sort.Slice]

    [sort.Slice] is not stable; what the program relies on is its contract:
    the slice is permuted, and for a [less] that is a strict weak ordering
    no element is [less] than one before it. *)

Record StrictWeakOrder {A : Type} (less : A → A → bool) : Prop := {
  less_irreflexive : ∀ x, less x x = false;
  less_transitive : ∀ x y z, less x y = true → less y z = true → less x z = true;
  less_negatively_transitive :
    ∀ x y z, less x y = false → less y z = false → less x z = false
}.

Definition sortsSlices (sort : ∀ A : Type, (A → A → bool) → list A → list A) : Prop :=
  ∀ (A : Type) (less : A → A → bool) (l : list A),
    sort A less l ≡ₚ l ∧
    (StrictWeakOrder less → StronglySorted (λ x y, less y x = false) (sort A less l)).

(** [insertionSortLessFunc], which [sort.Slice] runs on slices of at most
    12 elements: each element moves left while it is [less] than its left
    neighbour. [sorted] is the part already sorted, last element first. *)
Fixpoint insertLeft {A : Type} (less : A → A → bool) (x : A) (sorted : list A) : list A :=
  match sorted with
  | y :: sorted' => if less x y then y :: insertLeft less x sorted' else x :: sorted
  | [] => [x]
  end.

Fixpoint insertionSortFrom {A : Type} (less : A → A → bool) (sorted l : list A) : list A :=
  match l with
  | x :: l' => insertionSortFrom less (insertLeft less x sorted) l'
  | [] => rev sorted
  end.

Definition insertionSort (A : Type) (less : A → A → bool) (l : list A) : list A :=
  insertionSortFrom less [] l.

(** ** Release metadata *)

Record Asset : Type := mkAsset {
  Name : string;
  BrowserDownloadURL : string;
  Size : Z
}.

Definition osAliases : gmap string (list string) :=
  list_to_map
    [ ("linux", ["linux"]);
      ("darwin", ["darwin"; "macos"; "osx"]);
      ("windows", ["windows"; "win"]) ].

Definition archAliases : gmap string (list string) :=
  list_to_map
    [ ("amd64", ["amd64"; "x86_64"]);
      ("arm64", ["arm64"; "aarch64"]);
      ("386", ["386"; "i386"; "i686"]) ].

Definition archiveExts : list string :=
  [".tar.gz"; ".tgz"; ".tar.bz2"; ".tar.xz"; ".zip"].

Definition isArchive (name : string) : bool :=
  existsb (λ ext, GoStrings.HasSuffix name ext) archiveExts.

Definition matchesAny (s : string) (phrases : list string) : bool :=
  existsb (λ p, GoStrings.Contains s p) phrases.

(** The comparison handed to [sort.Slice] in [selectAsset]. *)
Definition shorterName (a b : Asset) : bool :=
  (GoStrings.len (Name a) <? GoStrings.len (Name b))%nat.

Section Selector.
(** [strings.Map(unicode.ToLower, _)] and [sort.Slice] are library code. *)
Variable unicodeLower : string → string.
Variable sort_Slice : ∀ A : Type, (A → A → bool) → list A → list A.

(** The test of the loop of [selectAsset]. *)
Definition isCandidate (osPhrases archPhrases : list string) (a : Asset) : bool :=
  let lower := GoStrings.ToLower unicodeLower (Name a) in
  matchesAny lower osPhrases && matchesAny lower archPhrases && isArchive lower.

Definition selectAsset (assets : list Asset) (goos goarch : string) : result Asset :=
  match osAliases !! goos with
  | None => Err (UnsupportedOS goos)
  | Some osPhrases =>
      match archAliases !! goarch with
      | None => Err (UnsupportedArch goarch)
      | Some archPhrases =>
          let candidates :=
            filter (λ a, isCandidate osPhrases archPhrases a = true) assets in
          if (length candidates =? 0)%nat then Err (NoAssetFound goos goarch)
          else
            (* Shortest name wins *)
            match sort_Slice Asset shorterName candidates with
            | c :: _ => Ok c
            | [] => Err (RuntimePanic "index out of range [0] with length 0")
            end
      end
  end.
End Selector.

(** ** Targets *)

Definition parseTarget (s : string) : result (string * string * string) :=
  let '(slug, tag, _) := GoStrings.Cut s "@" in
  match GoStrings.SplitN slug "/" 2 with
  | [owner; repo] =>
      if String.eqb owner "" || String.eqb repo ""
      then Err (InvalidTarget s)
      else Ok (owner, repo, tag)
  | _ => Err (InvalidTarget s)
  end.

(** [parseTarget] of the first revision (src/unnamed/part_000), which knows
    no version: its error message ends in "expected owner/repo". *)
Definition parseTarget_v0 (s : string) : result (string * string) :=
  match GoStrings.SplitN s "/" 2 with
  | [owner; repo] =>
      if String.eqb owner "" || String.eqb repo ""
      then Err (InvalidTarget s)
      else Ok (owner, repo)
  | _ => Err (InvalidTarget s)
  end.

(** ** Archives *)

(** [archive/tar]: a reader is the sequence of outcomes of its [Next]
    calls. Each entry carries the outcome of [io.ReadAll] on its body. *)
Module tar.
Record Header : Type := mkHeader {
  Typeflag : ascii;
  Name : string;
  Mode : Z          (* int64: permission and mode bits *)
}.

Definition TypeReg : ascii := "0"%char.

Inductive Reader : Type :=
  | EOF                                  (* Next returns io.EOF *)
  | Fail (e : error)                     (* Next returns another error *)
  | Entry (hdr : Header) (body : result bytes) (rest : Reader).

(** The permission bits of [hdr.FileInfo().Mode()], which are
    [fs.FileMode(hdr.Mode).Perm()]; the setuid, setgid, sticky and file
    type bits that [Mode()] adds all lie above them. *)
Definition FileInfoPerm (hdr : Header) : Z := Z.land (Mode hdr mod 2 ^ 32) 511 (* 0777 *).
End tar.

(** [archive/zip]: a file of the central directory with the mode that
    [f.Mode()] computes and the outcome of [f.Open] followed by
    [io.ReadAll]. *)
Module zip.
Record File : Type := mkFile {
  Name : string;
  Mode : Z;         (* fs.FileMode, uint32 *)
  Content : result bytes
}.

(** [f.FileInfo().IsDir()]: the [fs.ModeDir] bit, [1 << 31], of [f.Mode()]. *)
Definition IsDir (f : File) : bool := Z.testbit (Mode f) 31.
End zip.

Definition execBits : Z := 73 (* 0111 *).

(** [findInTar] returns the first executable file in a tar archive. *)
Fixpoint findInTar (tr : tar.Reader) : result (string * bytes) :=
  match tr with
  | tar.EOF => Err NoExecutable
  | tar.Fail e => Err e
  | tar.Entry hdr body rest =>
      if negb (Ascii.eqb (tar.Typeflag hdr) tar.TypeReg)
         || (Z.land (tar.FileInfoPerm hdr) execBits =? 0)
      then findInTar rest
      else
        match body with
        | Err e => Err e
        | Ok data => Ok (GoFilepath.Base (tar.Name hdr), data)
        end
  end.

Definition readZipFile (f : zip.File) : result bytes := zip.Content f.

Definition zipIsExec (f : zip.File) : bool := negb (Z.land (zip.Mode f) execBits =? 0).
Definition zipNoExt (f : zip.File) : bool :=
  String.eqb (GoFilepath.Ext (GoFilepath.Base (zip.Name f))) "".

(** The loop of [findInZip] (src/main.go) and the statements after it. *)
Fixpoint findInZipFiles (files : list zip.File) (fallback : option zip.File)
  : result (string * bytes) :=
  match files with
  | f :: rest =>
      if zip.IsDir f then findInZipFiles rest fallback
      else
        let base := GoFilepath.Base (zip.Name f) in
        let isExec := zipIsExec f in
        let noExt := zipNoExt f in
        if isExec || noExt then
          let fallback := match fallback with None => Some f | Some _ => fallback end in
          if isExec then
            match readZipFile f with
            | Err e => Err e
            | Ok content => Ok (base, content)
            end
          else findInZipFiles rest fallback
        else findInZipFiles rest fallback
  | [] =>
      match fallback with
      | Some fb =>
          match readZipFile fb with
          | Err e => Err e
          | Ok content => Ok (GoFilepath.Base (zip.Name fb), content)
          end
      | None => Err NoExecutable
      end
  end.

(** The loop of [findInZip] in the revision that extracts into temporary
    files (src/unnamed/part_001): [break] at the first executable entry. *)
Fixpoint findBestInZip (files : list zip.File) (best : option zip.File) : option zip.File :=
  match files with
  | f :: rest =>
      if zip.IsDir f then findBestInZip rest best
      else if zipIsExec f then Some f
      else if zipNoExt f && bool_decide (best = None) then findBestInZip rest (Some f)
      else findBestInZip rest best
  | [] => best
  end.

Definition findInZipFiles_tmp (files : list zip.File) : result (string * bytes) :=
  match findBestInZip files None with
  | None => Err NoExecutable
  | Some best =>
      match readZipFile best with
      | Err e => Err e
      | Ok content => Ok (GoFilepath.Base (zip.Name best), content)
      end
  end.

Section Extractor.
Variable unicodeLower : string → string.
(** The library readers: [io.Reader] values, [bytes.NewReader],
    [gzip.NewReader], [bzip2.NewReader], [tar.NewReader] and
    [zip.NewReader] (with the [File] field of its result). *)
Variable io_Reader : Type.
Variable bytes_NewReader : bytes → io_Reader.
Variable gzip_NewReader : io_Reader → result io_Reader.
Variable bzip2_NewReader : io_Reader → io_Reader.
Variable tar_NewReader : io_Reader → tar.Reader.
Variable zip_NewReader : bytes → result (list zip.File).

(** [findInZip] returns the first executable file in a zip archive and falls
    back to the first file without an extension if no exec bits are set. *)
Definition findInZip (data : bytes) : result (string * bytes) :=
  match zip_NewReader data with
  | Err e => Err e
  | Ok files => findInZipFiles files None
  end.

(** [extractBinary] extracts the binary from an archive; for non-archives
    (raw binary) it returns the asset name and data as-is. *)
Definition extractBinary (data : bytes) (assetName : string) : result (string * bytes) :=
  let lower := GoStrings.ToLower unicodeLower assetName in
  if GoStrings.HasSuffix lower ".tar.gz" || GoStrings.HasSuffix lower ".tgz" then
    match gzip_NewReader (bytes_NewReader data) with
    | Err e => Err e
    | Ok gz => findInTar (tar_NewReader gz)
    end
  else if GoStrings.HasSuffix lower ".tar.bz2" then
    findInTar (tar_NewReader (bzip2_NewReader (bytes_NewReader data)))
  else if GoStrings.HasSuffix lower ".zip" then
    findInZip data
  else Ok (assetName, data).
End Extractor.

(** ** The file system

    A path is the list of its elements, so [filepath.Join] is list
    concatenation (the elements are taken to be plain names: the lexical
    cleaning of [.], [..] and doubled separators by [filepath.Join] is not
    modelled). The file system maps each existing path to its node. *)

Definition path := list string.

Inductive node : Type :=
  | Dir (mtime : Z)
  | RegularFile (mtime : Z) (content : bytes)
  | Symlink (mtime : Z) (target : path).

Definition nodeIsDir (n : node) : bool :=
  match n with Dir _ => true | _ => false end.

Definition nodeModTime (n : node) : Z :=
  match n with Dir t | RegularFile t _ | Symlink t _ => t end.

(** The state the program acts on: the file system and standard output. *)
Record World : Type := mkWorld {
  fs : gmap path node;
  stdout : list string
}.

(** Computations that act on the world and may return an error. *)
Definition IO (A : Type) : Type := World → result A * World.

Definition ioRet {A} (a : A) : IO A := λ w, (Ok a, w).
Definition ioFail {A} (e : error) : IO A := λ w, (Err e, w).
Definition ioBind {A B} (c : IO A) (k : A → IO B) : IO B :=
  λ w, match c w with
       | (Ok a, w') => k a w'
       | (Err e, w') => (Err e, w')
       end.
(** A call whose error result the caller drops. *)
Definition ioIgnore {A} (c : IO A) : IO unit := λ w, (Ok (), (c w).2).

Notation "'do' x '<-' c ';' k" := (ioBind c (λ x, k))
  (at level 10, x binder, c at level 100, k at level 200).
Notation "'do_' c ';' k" := (ioBind c (λ _, k))
  (at level 10, c at level 100, k at level 200).

Module os.
Record FileInfo : Type := mkFileInfo { ModTime : Z }.

Record DirEntry : Type := mkDirEntry {
  Name : string;
  IsDir : bool;
  Info : FileInfo
}.

(** [relativeTo dir p] is [Some r] when [p = dir ++ r]. *)
Fixpoint relativeTo (dir p : path) : option path :=
  match dir, p with
  | [], _ => Some p
  | d :: dir', x :: p' => if decide (d = x) then relativeTo dir' p' else None
  | _ :: _, [] => None
  end.

Definition childEntry (dir : path) (kv : path * node) : option DirEntry :=
  match relativeTo dir kv.1 with
  | Some [name] => Some (mkDirEntry name (nodeIsDir kv.2) (mkFileInfo (nodeModTime kv.2)))
  | _ => None
  end.

Definition byName (a b : DirEntry) : Prop := String.leb (Name a) (Name b) = true.

#[global] Instance byName_dec : RelDecision byName.
Proof. intros a b. unfold byName. apply _. Defined.

(** [os.ReadDir]: the entries of a directory, sorted by file name. *)
Definition ReadDir (dir : path) : IO (list DirEntry) := λ w,
  match fs w !! dir with
  | Some (Dir _) =>
      (Ok (merge_sort byName (omap (childEntry dir) (map_to_list (fs w)))), w)
  | Some _ => (Err (LibraryError "not a directory"), w)
  | None => (Err (LibraryError "no such file or directory"), w)
  end.

(** [os.RemoveAll]: removes the path and everything below it; a path that
    does not exist is no error. The model has no permissions or device
    faults, so the removal always succeeds. *)
Definition RemoveAll (p : path) : IO unit := λ w,
  (Ok (), mkWorld (filter (λ kv, ¬ p `prefix_of` kv.1) (fs w)) (stdout w)).
End os.

Definition newline : string := String (ascii_of_nat 10) EmptyString.

(** [fmt.Printf] of an already formatted line. *)
Definition printf (line : string) : IO unit := λ w,
  (Ok (), mkWorld (fs w) (stdout w ++ [line])).

(** ** Installation *)

Section Installer.
(** The calls whose outcome the installer only tests: each may fail, and
    may change the world in any way. [handle] is [*os.File]. The removal of
    the install directory is [os.RemoveAll] of the file system above. *)
Variable handle : Type.
Variable os_MkdirAll : path → Z → IO unit.
Variable os_OpenFile : path → Z → Z → IO handle.
Variable io_Copy : handle → handle → IO Z.
Variable file_Close : handle → IO unit.
Variable time_Now : IO Z.
Variable os_Chtimes : path → Z → Z → IO unit.
Variable os_Remove : path → IO unit.
Variable os_Symlink : path → path → IO unit.
Variable os_UserHomeDir : IO path.
Variable os_WriteFile : path → bytes → Z → IO unit.

Definition O_CREATE_WRONLY_TRUNC : Z := 577 (* O_CREATE|O_WRONLY|O_TRUNC on Linux *).

(** The statements of [installBinary] (src/unnamed/part_001) that follow
    the [defer] of the clean-up and the opening of [dst]. [defer dst.Close()]
    runs when they are left, whatever the outcome. *)
Definition installInto (baseDir installDir binPath : path) (binName : string)
    (dst src : handle) : IO path :=
  λ w,
    let '(r, w') :=
      (do_ io_Copy dst src;
       do_ ioIgnore (file_Close dst);
       (* Touch the install dir so purge can sort by most recently installed. *)
       do now <- time_Now;
       do_ ioIgnore (os_Chtimes installDir now now);
       let linkDir := baseDir ++ ["bin"] in
       do_ os_MkdirAll linkDir 493 (* 0755 *);
       let linkPath := linkDir ++ [binName] in
       do_ ioIgnore (os_Remove linkPath); (* replace any existing symlink *)
       do_ os_Symlink binPath linkPath;
       ioRet linkPath) w in
    (r, (file_Close dst w').2).

(** [installBinary] places the binary under <baseDir>/ghinst/owner/repo@tag/
    and symlinks it into <baseDir>/bin/ (src/unnamed/part_001). The deferred
    function removes the install directory when the named result [err] is
    not nil. *)
Definition installBinary (baseDir : path) (owner repo tag binName : string)
    (src : handle) : IO path :=
  λ w,
    let installDir := baseDir ++ ["ghinst"; owner; repo +:+ "@" +:+ tag] in
    match os_MkdirAll installDir 493 (* 0755 *) w with
    | (Err e, w1) => (Err e, w1)
    | (Ok _, w1) =>
        let binPath := installDir ++ [binName] in
        let '(r, w2) :=
          (do dst <- os_OpenFile binPath O_CREATE_WRONLY_TRUNC 493;
           installInto baseDir installDir binPath binName dst src) w1 in
        match r with
        | Err e => (Err e, (os.RemoveAll installDir w2).2)
        | Ok linkPath => (Ok linkPath, w2)
        end
    end.

(** [installBinary] of the earlier revision (src/main.go), which installs
    under the home directory from a byte slice and has no deferred
    clean-up. *)
Definition installBinary_home (owner repo tag binName : string) (data : bytes) : IO path :=
  do home <- os_UserHomeDir;
  let installDir := home ++ [".local"; "ghinst"; owner; repo +:+ "@" +:+ tag] in
  do_ os_MkdirAll installDir 493;
  let binPath := installDir ++ [binName] in
  do_ os_WriteFile binPath data 493;
  let linkDir := home ++ [".local"; "bin"] in
  do_ os_MkdirAll linkDir 493;
  let linkPath := linkDir ++ [binName] in
  do_ ioIgnore (os_Remove linkPath);
  do_ os_Symlink binPath linkPath;
  ioRet linkPath.
End Installer.

(** ** Purge *)

(** The comparison handed to [sort.Slice] in [purge]:
    [iInfo.ModTime().Before(jInfo.ModTime())]. The [Info] of an entry is
    taken to succeed: it fails only when the entry vanished after
    [os.ReadDir] listed it, and nothing else acts on the world. *)
Definition olderThan (i j : os.DirEntry) : bool :=
  os.ModTime (os.Info i) <? os.ModTime (os.Info j).

(** The test of the first loop of [purge]. *)
Definition isVersionOf (repo : string) (e : os.DirEntry) : bool :=
  os.IsDir e &&
  let '(name, _, found) := GoStrings.Cut (os.Name e) "@" in
  found && String.eqb name repo.

(** The second loop of [purge]. *)
Fixpoint purgeEach (owner : string) (ownerDir : path) (vs : list os.DirEntry) : IO unit :=
  match vs with
  | [] => ioRet ()
  | v :: rest =>
      let dir := ownerDir ++ [os.Name v] in
      do_ os.RemoveAll dir;
      do_ printf ("purged " +:+ owner +:+ "/" +:+ os.Name v +:+ newline);
      purgeEach owner ownerDir rest
  end.

Section Purge.
Variable sort_Slice : ∀ A : Type, (A → A → bool) → list A → list A.

(** [purge] removes all but the most recently installed version of
    owner/repo. *)
Definition purge (baseDir : path) (owner repo : string) : IO unit :=
  let ownerDir := baseDir ++ ["ghinst"; owner] in
  do entries <- os.ReadDir ownerDir;
  let versions := filter (λ e, isVersionOf repo e = true) entries in
  if (length versions <=? 1)%nat then ioRet ()
  else
    (* Sort by modification time, keep the newest. *)
    let versions := sort_Slice os.DirEntry olderThan versions in
    purgeEach owner ownerDir (take (length versions - 1) versions).
End Purge.

(** * Vocabulary of the properties *)

(** The filter of the design document, in its words: the lowercased name
    contains an OS phrase and an architecture phrase and ends in an archive
    extension. *)
Definition passesFilter (unicodeLower : string → string)
    (osPhrases archPhrases : list string) (a : Asset) : Prop :=
  let lower := GoStrings.ToLower unicodeLower (Name a) in
  (∃ p, p ∈ osPhrases ∧ GoStrings.Contains lower p = true) ∧
  (∃ p, p ∈ archPhrases ∧ GoStrings.Contains lower p = true) ∧
  (∃ ext, ext ∈ [".tar.gz"; ".tgz"; ".tar.bz2"; ".tar.xz"; ".zip"] ∧
          GoStrings.HasSuffix lower ext = true).

(** A suffix that no archive extension ends in, and that ends in no
    archive extension. *)
Definition foreignSuffix (suffix : string) : bool :=
  forallb (λ ext, negb (GoStrings.HasSuffix suffix ext) && negb (GoStrings.HasSuffix ext suffix))
    archiveExts.

(** A mode has an execute permission bit: owner (0100), group (0010) or
    other (0001). *)
Definition hasExecBit (mode : Z) : Prop :=
  Z.testbit mode 6 = true ∨ Z.testbit mode 3 = true ∨ Z.testbit mode 0 = true.

(** A tar entry that [findInTar] selects: a regular file with an execute
    permission bit. *)
Definition tarExecutable (hdr : tar.Header) : Prop :=
  tar.Typeflag hdr = tar.TypeReg ∧ hasExecBit (tar.Mode hdr).

(** The reader that yields [entries] and then behaves as [rest]. *)
Definition tarPrepend (entries : list (tar.Header * result bytes)) (rest : tar.Reader)
  : tar.Reader :=
  foldr (λ e r, tar.Entry e.1 e.2 r) rest entries.

(** An entry of a zip archive that has an execute permission bit, and one
    whose base name has no extension; neither is a directory. *)
Definition zipExecutable (f : zip.File) : Prop :=
  zip.IsDir f = false ∧ hasExecBit (zip.Mode f).

Definition zipExtensionless (f : zip.File) : Prop :=
  zip.IsDir f = false ∧ GoFilepath.Ext (GoFilepath.Base (zip.Name f)) = "".

(** What extraction returns for the entry it settles on. *)
Definition zipPayload (f : zip.File) : result (string * bytes) :=
  match zip.Content f with
  | Err e => Err e
  | Ok content => Ok (GoFilepath.Base (zip.Name f), content)
  end.

(** The portion of a string before the first occurrence of a byte (all of
    it when the byte does not occur), the portion after it (empty when the
    byte does not occur), and whether the byte occurs. *)
Fixpoint beforeByte (c : ascii) (s : string) : string :=
  match s with
  | EmptyString => EmptyString
  | String x s' => if Ascii.eqb x c then EmptyString else String x (beforeByte c s')
  end.

Fixpoint afterByte (c : ascii) (s : string) : string :=
  match s with
  | EmptyString => EmptyString
  | String x s' => if Ascii.eqb x c then s' else afterByte c s'
  end.

Fixpoint hasByte (c : ascii) (s : string) : bool :=
  match s with
  | EmptyString => false
  | String x s' => Ascii.eqb x c || hasByte c s'
  end.

(** The names of the version directories of [repo]: repo, then "@", then a
    tag, where repo is what precedes the first "@" of the name. *)
Definition isVersionName (repo name : string) : Prop :=
  ∃ tag, name = repo +:+ "@" +:+ tag ∧ hasByte "@" repo = false.

Definition purgedLine (owner : string) (v : os.DirEntry) : string :=
  "purged " +:+ owner +:+ "/" +:+ os.Name v +:+ newline.

(** An installed version directory of [repo] below the owner directory:
    a directory named repo@tag, with its modification time. *)
Definition versionDir (w : World) (ownerDir : path) (repo name : string) (t : Z) : Prop :=
  fs w !! (ownerDir ++ [name]) = Some (Dir t) ∧ isVersionName repo name.

(** What a successful [purge] leaves behind: with at most one version
    directory of [repo], the world as it was; with several, one of them
    that none is newer than (the directory itself untouched), every other
    one gone with all below it, and every other path as it was. *)
Definition purgeOutcome (w w' : World) (ownerDir : path) (repo : string) : Prop :=
  ((∀ n1 t1 n2 t2, versionDir w ownerDir repo n1 t1 →
                   versionDir w ownerDir repo n2 t2 → n1 = n2) → w' = w) ∧
  ((∃ n1 t1 n2 t2, versionDir w ownerDir repo n1 t1 ∧
                   versionDir w ownerDir repo n2 t2 ∧ n1 ≠ n2) →
   ∃ kept tk,
     versionDir w ownerDir repo kept tk ∧
     (∀ n t, versionDir w ownerDir repo n t → t ≤ tk) ∧
     fs w' !! (ownerDir ++ [kept]) = Some (Dir tk) ∧
     (∀ n t q, versionDir w ownerDir repo n t → n ≠ kept →
               (ownerDir ++ [n]) `prefix_of` q → fs w' !! q = None) ∧
     (∀ q, (∀ n t, versionDir w ownerDir repo n t → n ≠ kept →
                   ¬ (ownerDir ++ [n]) `prefix_of` q) →
           fs w' !! q = fs w !! q)).

(** What the installer relies on from the operating system, as far as the
    file system goes: [os.MkdirAll], when it succeeds, makes every element
    of the path a directory, and in any case touches nothing but the path
    and its ancestors; opening, removing and linking a file touch nothing
    outside its directory, and opening leaves that directory a directory;
    [io.Copy] writes to the file of its destination only ([handlePath] is
    [File.Name]); closing a file and reading the clock leave the file
    system as it is, the clock reading [now]; [os.Chtimes] on a directory
    sets its modification time. *)
Record OSContract {handle : Type} (handlePath : handle → path)
    (os_MkdirAll : path → Z → IO unit) (os_OpenFile : path → Z → Z → IO handle)
    (io_Copy : handle → handle → IO Z) (file_Close : handle → IO unit)
    (time_Now : IO Z) (os_Chtimes : path → Z → Z → IO unit)
    (os_Remove : path → IO unit) (os_Symlink : path → path → IO unit)
    (now : Z) : Prop := {
  MkdirAll_dirs : ∀ p perm w w', os_MkdirAll p perm w = (Ok (), w') →
    ∀ q, q ≠ [] → q `prefix_of` p → ∃ t, fs w' !! q = Some (Dir t);
  MkdirAll_frame : ∀ p perm w r w', os_MkdirAll p perm w = (r, w') →
    ∀ q, ¬ q `prefix_of` p → fs w' !! q = fs w !! q;
  OpenFile_name : ∀ p flag perm w h w', os_OpenFile p flag perm w = (Ok h, w') →
    handlePath h = p;
  OpenFile_frame : ∀ dir name flag perm w r w',
    os_OpenFile (dir ++ [name]) flag perm w = (r, w') →
    ∀ q, ¬ dir `prefix_of` q → fs w' !! q = fs w !! q;
  OpenFile_dir : ∀ dir name flag perm w h w' t,
    os_OpenFile (dir ++ [name]) flag perm w = (Ok h, w') →
    fs w !! dir = Some (Dir t) → ∃ t', fs w' !! dir = Some (Dir t');
  Copy_frame : ∀ dst src w r w', io_Copy dst src w = (r, w') →
    ∀ q, q ≠ handlePath dst → fs w' !! q = fs w !! q;
  Close_frame : ∀ h w, fs (file_Close h w).2 = fs w;
  Now_frame : ∀ w r w', time_Now w = (r, w') → r = Ok now ∧ fs w' = fs w;
  Chtimes_dir : ∀ p atime mtime w t, fs w !! p = Some (Dir t) →
    fs (os_Chtimes p atime mtime w).2 = <[p := Dir mtime]> (fs w);
  Remove_frame : ∀ dir name w q, ¬ dir `prefix_of` q →
    fs (os_Remove (dir ++ [name]) w).2 !! q = fs w !! q;
  Symlink_frame : ∀ target dir name w r w',
    os_Symlink target (dir ++ [name]) w = (r, w') →
    ∀ q, ¬ dir `prefix_of` q → fs w' !! q = fs w !! q
}.

(** What the installer writes: a successful [io.Copy] gives the file of its
    destination the content of the file of its source, and a successful
    [os.Symlink] makes the link, with its target. *)
Record OSWrites {handle : Type} (handlePath : handle → path)
    (io_Copy : handle → handle → IO Z) (os_Symlink : path → path → IO unit) : Prop := {
  Copy_content : ∀ dst src w n w' t content, io_Copy dst src w = (Ok n, w') →
    fs w !! handlePath src = Some (RegularFile t content) →
    ∃ t', fs w' !! handlePath dst = Some (RegularFile t' content);
  Symlink_makes : ∀ target link w w', os_Symlink target link w = (Ok (), w') →
    ∃ t, fs w' !! link = Some (Symlink t target)
}.

(** * Sample inputs *)

Definition sampleAssets : list Asset :=
  [ mkAsset "tool_linux_amd64.tar.gz" "https://example.com/1" 10;
    mkAsset "tool_linux_amd64.deb" "https://example.com/2" 11;
    mkAsset "tool_macos_arm64.tar.gz" "https://example.com/3" 12;
    mkAsset "tool_linux_amd64.tar.gz.sha256" "https://example.com/4" 13 ].

Definition sampleData : bytes := [Byte.x7f; Byte.x45; Byte.x4c; Byte.x46].

Definition sampleTarSkipped : list (tar.Header * result bytes) :=
  [ (tar.mkHeader "5" "tool-1.0/" 493, Ok []);
    (tar.mkHeader "0" "tool-1.0/README.md" 420, Ok [Byte.x23]);
    (tar.mkHeader "2" "tool-1.0/latest" 511, Ok []) ].

Definition sampleTarTool : tar.Header := tar.mkHeader "0" "tool-1.0/bin/tool" 493.

Definition sampleZipFiles : list zip.File :=
  [ zip.mkFile "tool/" (2147483648 + 493) (Ok []);
    zip.mkFile "tool/LICENSE" 420 (Ok [Byte.x4d]);
    zip.mkFile "tool/tool.exe" 493 (Ok sampleData);
    zip.mkFile "tool/README.txt" 420 (Ok [Byte.x23]) ].

(** Sample operating-system calls on the file system model, to run the
    installer on: only the failure of a copy on a full device is
    injected. *)

Fixpoint mkdirAll (parent names : path) (m : gmap path node) : result (gmap path node) :=
  match names with
  | [] => Ok m
  | x :: rest =>
      let q := parent ++ [x] in
      match m !! q with
      | None => mkdirAll q rest (<[q := Dir 0]> m)
      | Some (Dir _) => mkdirAll q rest m
      | Some _ => Err (LibraryError "not a directory")
      end
  end.

Definition sample_MkdirAll (p : path) (perm : Z) : IO unit := λ w,
  match mkdirAll [] p (fs w) with
  | Ok m => (Ok (), mkWorld m (stdout w))
  | Err e => (Err e, w)
  end.

Definition sample_OpenFile (p : path) (flag perm : Z) : IO path := λ w,
  match fs w !! p with
  | Some (Dir _) => (Err (LibraryError "is a directory"), w)
  | _ => (Ok p, mkWorld (<[p := RegularFile 0 []]> (fs w)) (stdout w))
  end.

Definition sample_Copy (dst src : path) : IO Z := λ w,
  match fs w !! src with
  | Some (RegularFile _ content) =>
      (Ok (Z.of_nat (length content)),
       mkWorld (<[dst := RegularFile 0 content]> (fs w)) (stdout w))
  | _ => (Err (LibraryError "bad file descriptor"), w)
  end.

Definition full_Copy (dst src : path) : IO Z :=
  ioFail (LibraryError "no space left on device").

Definition sample_WriteFile (p : path) (data : bytes) (perm : Z) : IO unit := λ w,
  (Ok (), mkWorld (<[p := RegularFile 0 data]> (fs w)) (stdout w)).

Definition full_WriteFile (p : path) (data : bytes) (perm : Z) : IO unit := λ w,
  (Err (LibraryError "no space left on device"),
   mkWorld (<[p := RegularFile 0 []]> (fs w)) (stdout w)).

Definition sample_Close (h : path) : IO unit := ioRet ().
Definition sample_Now : IO Z := ioRet 1700000000.

Definition sample_Chtimes (p : path) (atime mtime : Z) : IO unit := λ w,
  match fs w !! p with
  | Some (Dir _) => (Ok (), mkWorld (<[p := Dir mtime]> (fs w)) (stdout w))
  | _ => (Err (LibraryError "no such file or directory"), w)
  end.

Definition sample_Remove (p : path) : IO unit := λ w,
  (Ok (), mkWorld (delete p (fs w)) (stdout w)).

Definition sample_Symlink (target link : path) : IO unit := λ w,
  match fs w !! link with
  | Some _ => (Err (LibraryError "file exists"), w)
  | None => (Ok (), mkWorld (<[link := Symlink 0 target]> (fs w)) (stdout w))
  end.

Definition sampleBase : path := ["home"; "u"; ".local"].
Definition sampleSrc : path := ["tmp"; "ghinst-bin-1"].
Definition sampleWorld : World :=
  mkWorld {[ sampleSrc := RegularFile 0 sampleData ]} [].
Definition sampleInstallDir : path := sampleBase ++ ["ghinst"; "junegunn"; "fzf@v0.54.0"].

(** The installer run on a full device: the copy of the binary fails. *)
Definition failedInstall : result path * World :=
  installBinary path sample_MkdirAll sample_OpenFile full_Copy sample_Close sample_Now
    sample_Chtimes sample_Remove sample_Symlink
    sampleBase "junegunn" "fzf" "v0.54.0" "fzf" sampleSrc sampleWorld.

Definition sampleOwnerDir : path := sampleBase ++ ["ghinst"; "junegunn"].

(** Two installed versions of fzf, an installed version of another
    repository of the same owner and a stray file. *)
Definition purgeWorld : World :=
  mkWorld
    (list_to_map
       [ (sampleBase, Dir 10);
         (sampleBase ++ ["ghinst"], Dir 10);
         (sampleOwnerDir, Dir 10);
         (sampleOwnerDir ++ ["fzf@v0.54.0"], Dir 200);
         (sampleOwnerDir ++ ["fzf@v0.54.0"; "fzf"], RegularFile 200 sampleData);
         (sampleOwnerDir ++ ["fzf@v0.53.0"], Dir 100);
         (sampleOwnerDir ++ ["fzf@v0.53.0"; "fzf"], RegularFile 100 sampleData);
         (sampleOwnerDir ++ ["fzf-tmux@v1"], Dir 300);
         (sampleOwnerDir ++ ["fzf@notes"], RegularFile 400 []) ])
    [].

Definition purgedWorld : result unit * World :=
  purge insertionSort sampleBase "junegunn" "fzf" purgeWorld.

(** The two installed versions of fzf, with a downloaded binary of a third
    one to install. *)
Definition upgradeWorld : World :=
  mkWorld (<[sampleSrc := RegularFile 0 sampleData]> (fs purgeWorld)) [].

Definition upgradedWorld : result path * World :=
  installBinary path sample_MkdirAll sample_OpenFile sample_Copy sample_Close sample_Now
    sample_Chtimes sample_Remove sample_Symlink
    sampleBase "junegunn" "fzf" "v0.55.0" "fzf" sampleSrc upgradeWorld.


(** * Properties *)

(** ** Insertion sort meets the contract of [sort.Slice] *)

Lemma insertLeft_Permutation {A} (less : A → A → bool) x sorted :
  insertLeft less x sorted ≡ₚ x :: sorted.
Proof.
  induction sorted as [|y sorted IH]; simpl; [done|].
  destruct (less x y); [|done].
  rewrite IH. apply Permutation_swap.
Qed.

Lemma insertionSortFrom_Permutation {A} (less : A → A → bool) l sorted :
  insertionSortFrom less sorted l ≡ₚ sorted ++ l.
Proof.
  revert sorted. induction l as [|x l IH]; intros sorted; simpl.
  - rewrite app_nil_r. symmetry. apply Permutation_rev.
  - rewrite IH, insertLeft_Permutation. apply Permutation_middle.
Qed.

Lemma insertLeft_sorted {A} (less : A → A → bool) x sorted :
  StrictWeakOrder less →
  StronglySorted (λ a b, less a b = false) sorted →
  StronglySorted (λ a b, less a b = false) (insertLeft less x sorted).
Proof.
  intros Hswo. induction 1 as [|y sorted Hs IH Hy]; simpl.
  - repeat constructor.
  - destruct (less x y) eqn:Hxy.
    + constructor; [exact IH|].
      rewrite insertLeft_Permutation. constructor; [|exact Hy].
      destruct (less y x) eqn:Hyx; [|done].
      rewrite <- (less_irreflexive less Hswo x).
      symmetry. eapply less_transitive; eauto.
    + constructor; [by constructor|].
      constructor; [exact Hxy|].
      eapply Forall_impl; [exact Hy|]. simpl. intros z Hyz.
      eapply less_negatively_transitive; eauto.
Qed.

Lemma StronglySorted_rev {A} (R : A → A → Prop) l :
  StronglySorted R l → StronglySorted (flip R) (rev l).
Proof.
  induction 1 as [|x l Hl IH Hx]; simpl; [constructor|].
  apply StronglySorted_app_2; [|exact IH|repeat constructor].
  intros a b Ha Hb. apply list_elem_of_singleton in Hb as ->.
  apply list_elem_of_In, in_rev, list_elem_of_In in Ha. unfold flip.
  by eapply Forall_forall in Hx; [|exact Ha].
Qed.

Lemma insertionSortFrom_sorted {A} (less : A → A → bool) l sorted :
  StrictWeakOrder less →
  StronglySorted (λ a b, less a b = false) sorted →
  StronglySorted (λ x y, less y x = false) (insertionSortFrom less sorted l).
Proof.
  intros Hswo. revert sorted. induction l as [|x l IH]; intros sorted Hs; simpl.
  - by apply (StronglySorted_rev _ _ Hs).
  - apply IH. by apply insertLeft_sorted.
Qed.

Lemma insertionSort_sortsSlices : sortsSlices insertionSort.
Proof.
  intros A less l. split.
  - unfold insertionSort. by rewrite insertionSortFrom_Permutation.
  - intros Hswo. apply insertionSortFrom_sorted; [done|constructor].
Qed.

(** ** Facts about the string functions *)

Lemma string_app_cons c (p q : string) : String c p +:+ q = String c (p +:+ q).
Proof. reflexivity. Qed.

Lemma string_app_nil (q : string) : "" +:+ q = q.
Proof. reflexivity. Qed.

Lemma string_length_app (p q : string) :
  String.length (p +:+ q) = (String.length p + String.length q)%nat.
Proof.
  induction p as [|c p IH]; [reflexivity|].
  rewrite string_app_cons. simpl. by f_equal.
Qed.

Lemma string_app_assoc (p q r : string) : (p +:+ q) +:+ r = p +:+ q +:+ r.
Proof.
  induction p as [|c p IH]; [reflexivity|].
  rewrite !string_app_cons. by f_equal.
Qed.

Lemma substring_all (s : string) : String.substring 0 (String.length s) s = s.
Proof. induction s as [|c s IH]; simpl; [reflexivity|by f_equal]. Qed.

Lemma substring_app_r (p q : string) :
  String.substring (String.length p) (String.length q) (p +:+ q) = q.
Proof.
  induction p as [|c p IH]; [apply substring_all|].
  rewrite string_app_cons. exact IH.
Qed.

Lemma substring_split (s : string) (n : nat) :
  (n ≤ String.length s)%nat →
  s = String.substring 0 n s +:+ String.substring n (String.length s - n) s.
Proof.
  revert n. induction s as [|c s IH]; intros [|n] Hn; simpl in *; try lia; try done.
  - by rewrite string_app_nil, substring_all.
  - rewrite string_app_cons. f_equal. apply IH. lia.
Qed.

Lemma prefix_spec (p s : string) :
  String.prefix p s = true ↔ ∃ q, s = p +:+ q.
Proof.
  revert s. induction p as [|c p IH]; intros s.
  - split; [by exists s|by destruct s].
  - destruct s as [|d s]; simpl; [split; [done|by intros [q ?]]|].
    destruct (ascii_dec c d) as [->|Hne].
    + rewrite IH. split; intros [q Hq]; exists q.
      * rewrite string_app_cons. by f_equal.
      * rewrite string_app_cons in Hq. congruence.
    + split; [done|]. intros [q Hq]. rewrite string_app_cons in Hq. congruence.
Qed.

Lemma HasSuffix_spec (s suffix : string) :
  GoStrings.HasSuffix s suffix = true ↔ ∃ p, s = p +:+ suffix.
Proof.
  unfold GoStrings.HasSuffix, GoStrings.slice, GoStrings.len.
  rewrite andb_true_iff, Nat.leb_le, String.eqb_eq. split.
  - intros [Hlen Heq].
    exists (String.substring 0 (String.length s - String.length suffix) s).
    rewrite <- Heq at 2. apply substring_split. lia.
  - intros [p ->]. rewrite string_length_app. split; [lia|].
    replace (String.length p + String.length suffix - String.length suffix)%nat
      with (String.length p) by lia.
    replace (String.length p + String.length suffix - String.length p)%nat
      with (String.length suffix) by lia.
    apply substring_app_r.
Qed.

Lemma Index_cons (c : ascii) (s substr : string) :
  GoStrings.Index (String c s) substr =
  if GoStrings.HasPrefix (String c s) substr then Some 0%nat
  else S <$> GoStrings.Index s substr.
Proof. reflexivity. Qed.

Lemma slice_cons_S (c : ascii) (s : string) (i j : nat) :
  GoStrings.slice (String c s) (S i) (S j) = GoStrings.slice s i j.
Proof. reflexivity. Qed.

Lemma slice_cons_0 (c : ascii) (s : string) (j : nat) :
  GoStrings.slice (String c s) 0 (S j) = String c (GoStrings.slice s 0 j).
Proof. unfold GoStrings.slice. by rewrite !Nat.sub_0_r. Qed.

Lemma slice_0_0 (s : string) : GoStrings.slice s 0 0 = "".
Proof. by destruct s. Qed.

Lemma slice_suffix (p q : string) :
  GoStrings.slice (p +:+ q) (GoStrings.len p) (GoStrings.len (p +:+ q)) = q.
Proof.
  unfold GoStrings.slice, GoStrings.len. rewrite string_length_app.
  replace (String.length p + String.length q - String.length p)%nat
    with (String.length q) by lia.
  apply substring_app_r.
Qed.

Lemma Index_Some_split (s substr : string) (i : nat) :
  GoStrings.Index s substr = Some i →
  s = GoStrings.slice s 0 i +:+ substr
        +:+ GoStrings.slice s (i + GoStrings.len substr) (GoStrings.len s) ∧
  GoStrings.len (GoStrings.slice s 0 i) = i.
Proof.
  revert i. induction s as [|c s IH]; intros i Hi.
  - cbn in Hi. destruct substr; [|done]. by injection Hi as <-.
  - rewrite Index_cons in Hi.
    destruct (GoStrings.HasPrefix (String c s) substr) eqn:Hp.
    + injection Hi as <-. apply prefix_spec in Hp as [q Hq].
      rewrite slice_0_0, string_app_nil. split; [|done].
      rewrite Hq at 2 3. simpl. by rewrite slice_suffix.
    + destruct (GoStrings.Index s substr) as [j|] eqn:Hj; [|done].
      injection Hi as <-. destruct (IH j eq_refl) as [Hs Hlen].
      change (GoStrings.len (String c s)) with (S (GoStrings.len s)).
      rewrite slice_cons_0. change (S j + GoStrings.len substr)%nat
        with (S (j + GoStrings.len substr)).
      rewrite slice_cons_S, string_app_cons. split; [by f_equal|].
      change (S (GoStrings.len (GoStrings.slice s 0 j)) = S j). by f_equal.
Qed.

Lemma Index_HasPrefix (s substr : string) :
  GoStrings.HasPrefix s substr = true → GoStrings.Index s substr = Some 0%nat.
Proof.
  intros Hp. destruct s as [|c s].
  - unfold GoStrings.Index. by rewrite Hp.
  - by rewrite Index_cons, Hp.
Qed.

Lemma Contains_spec (s substr : string) :
  GoStrings.Contains s substr = true ↔ ∃ p q, s = p +:+ substr +:+ q.
Proof.
  unfold GoStrings.Contains. split.
  - destruct (GoStrings.Index s substr) as [i|] eqn:Hi; [|done].
    intros _. apply Index_Some_split in Hi as (Hs & _). eauto.
  - intros (p & q & ->). induction p as [|c p IH].
    + rewrite string_app_nil, Index_HasPrefix; [done|].
      apply prefix_spec; eauto.
    + rewrite string_app_cons, Index_cons.
      destruct (GoStrings.HasPrefix _ _); [done|].
      by destruct (GoStrings.Index (p +:+ substr +:+ q) substr).
Qed.

Lemma Contains_trans (s t u : string) :
  GoStrings.Contains s t = true → GoStrings.Contains t u = true →
  GoStrings.Contains s u = true.
Proof.
  rewrite !Contains_spec. intros (p & q & ->) (p' & q' & ->).
  exists (p +:+ p'), (q' +:+ q). by rewrite !string_app_assoc.
Qed.

(** ** The asset selector *)

Lemma shorterName_StrictWeakOrder : StrictWeakOrder shorterName.
Proof.
  unfold shorterName. split.
  - intros x. apply Nat.ltb_irrefl.
  - intros x y z. rewrite !Nat.ltb_lt. lia.
  - intros x y z. rewrite !Nat.ltb_ge. lia.
Qed.

Lemma matchesAny_spec (s : string) (phrases : list string) :
  matchesAny s phrases = true ↔ ∃ p, p ∈ phrases ∧ GoStrings.Contains s p = true.
Proof.
  unfold matchesAny. rewrite existsb_exists.
  split; intros (p & Hp & Hc); exists p; by rewrite ?list_elem_of_In in *.
Qed.

Lemma isArchive_spec (name : string) :
  isArchive name = true ↔
  ∃ ext, ext ∈ [".tar.gz"; ".tgz"; ".tar.bz2"; ".tar.xz"; ".zip"] ∧
         GoStrings.HasSuffix name ext = true.
Proof.
  unfold isArchive. rewrite existsb_exists.
  split; intros (p & Hp & Hc); exists p; by rewrite ?list_elem_of_In in *.
Qed.

Section SelectorProperties.
Variable unicodeLower : string → string.
Variable sort_Slice : ∀ A : Type, (A → A → bool) → list A → list A.

Lemma isCandidate_spec osPhrases archPhrases a :
  isCandidate unicodeLower osPhrases archPhrases a = true ↔
  passesFilter unicodeLower osPhrases archPhrases a.
Proof.
  unfold isCandidate, passesFilter.
  by rewrite !andb_true_iff, !matchesAny_spec, isArchive_spec, (assoc (∧)).
Qed.

Lemma candidates_nil osPhrases archPhrases (assets : list Asset) :
  filter (λ a, isCandidate unicodeLower osPhrases archPhrases a = true) assets = [] ↔
  ∀ b, b ∈ assets → ¬ passesFilter unicodeLower osPhrases archPhrases b.
Proof.
  split.
  - intros Hnil b Hb Hpass. apply isCandidate_spec in Hpass.
    assert (b ∈ filter (λ a, isCandidate unicodeLower osPhrases archPhrases a = true) assets)
      as Hin by by apply list_elem_of_filter.
    rewrite Hnil in Hin. by apply not_elem_of_nil in Hin.
  - intros Hnone. apply elem_of_nil_inv. intros b Hb.
    apply list_elem_of_filter in Hb as [Hc Hb].
    apply (Hnone b Hb). by apply isCandidate_spec.
Qed.

(** C5: when the OS or the architecture is not a key of its alias table,
    [selectAsset] fails with an error of kind [UnsupportedPlatform], for
    every asset list (the empty one included): the assets are never
    looked at. *)
Theorem selectAsset_unsupported_platform (assets : list Asset) (goos goarch : string) :
  osAliases !! goos = None ∨ archAliases !! goarch = None →
  ∃ e, selectAsset unicodeLower sort_Slice assets goos goarch = Err e ∧
       errorKind e = UnsupportedPlatform ∧
       selectAsset unicodeLower sort_Slice [] goos goarch = Err e.
Proof.
  unfold selectAsset. intros [Hos|Harch].
  - rewrite Hos. by eexists.
  - rewrite Harch. destruct (osAliases !! goos); by eexists.
Qed.

(** C6: for an OS and an architecture that are keys of the alias tables,
    [selectAsset] fails with an error of kind [NoMatchingAsset] exactly
    when the asset list is empty or contains no asset that passes the
    filter. *)
Theorem selectAsset_no_matching_asset_iff (assets : list Asset) (goos goarch : string)
    (osPhrases archPhrases : list string) :
  osAliases !! goos = Some osPhrases →
  archAliases !! goarch = Some archPhrases →
  (∃ e, selectAsset unicodeLower sort_Slice assets goos goarch = Err e ∧
        errorKind e = NoMatchingAsset) ↔
  (assets = [] ∨ ∀ b, b ∈ assets → ¬ passesFilter unicodeLower osPhrases archPhrases b).
Proof.
  intros Hos Harch. unfold selectAsset. rewrite Hos, Harch. simpl.
  set (candidates := filter _ assets).
  destruct (Nat.eqb_spec (length candidates) 0) as [Hlen|Hlen].
  - apply length_zero_iff_nil in Hlen.
    pose proof (proj1 (candidates_nil _ _ _) Hlen) as Hnone.
    split; [by right|]. intros _. by eexists.
  - split.
    + intros (e & He & Hk).
      destruct (sort_Slice Asset shorterName candidates); by simplify_eq.
    + intros Hnone. exfalso. apply Hlen, length_zero_iff_nil.
      apply (proj2 (candidates_nil _ _ _)).
      destruct Hnone as [->|Hnone]; [|done]. intros b Hb. by apply not_elem_of_nil in Hb.
Qed.

Hypothesis sort_Slice_contract : sortsSlices sort_Slice.

(** With a non-empty candidate list the selector returns the head of the
    sorted candidates: an element no other candidate is shorter than. *)
Lemma sorted_candidates_head (candidates : list Asset) :
  candidates ≠ [] →
  ∃ c rest, sort_Slice Asset shorterName candidates = c :: rest ∧
            c ∈ candidates ∧
            ∀ b, b ∈ candidates → (GoStrings.len (Name c) ≤ GoStrings.len (Name b))%nat.
Proof.
  intros Hne.
  destruct (sort_Slice_contract Asset shorterName candidates) as [Hperm Hsorted].
  specialize (Hsorted shorterName_StrictWeakOrder).
  destruct (sort_Slice Asset shorterName candidates) as [|c rest] eqn:Hs.
  { by apply Permutation_nil in Hperm. }
  exists c, rest. split; [done|]. split.
  { rewrite <- Hperm. apply list_elem_of_here. }
  intros b Hb. rewrite <- Hperm in Hb.
  apply elem_of_cons in Hb as [->|Hb]; [done|].
  apply StronglySorted_inv in Hsorted as [_ Hall].
  eapply Forall_forall in Hall; [|exact Hb].
  unfold shorterName in Hall. by apply Nat.ltb_ge in Hall.
Qed.

(** C1: for an OS and an architecture that are keys of the alias tables, an
    asset that [selectAsset] returns is an element of the asset list, passes
    the filter (its lowercased name contains an OS phrase and an
    architecture phrase and ends in .tar.gz, .tgz, .tar.bz2, .tar.xz or
    .zip), and no asset of the list that passes the filter has a shorter
    (original) name. *)
Theorem selectAsset_returns_shortest_candidate (assets : list Asset)
    (goos goarch : string) (osPhrases archPhrases : list string) (a : Asset) :
  osAliases !! goos = Some osPhrases →
  archAliases !! goarch = Some archPhrases →
  selectAsset unicodeLower sort_Slice assets goos goarch = Ok a →
  a ∈ assets ∧
  passesFilter unicodeLower osPhrases archPhrases a ∧
  ∀ b, b ∈ assets → passesFilter unicodeLower osPhrases archPhrases b →
       (GoStrings.len (Name a) ≤ GoStrings.len (Name b))%nat.
Proof.
  intros Hos Harch. unfold selectAsset. rewrite Hos, Harch. simpl.
  set (candidates := filter _ assets).
  destruct (Nat.eqb_spec (length candidates) 0) as [Hlen|Hlen]; [done|].
  destruct (sorted_candidates_head candidates) as (c & rest & Hs & Hc & Hmin).
  { intros Hnil. by rewrite Hnil in Hlen. }
  rewrite Hs. intros [= <-].
  apply list_elem_of_filter in Hc as [Hc Hin].
  split; [done|]. split; [by apply isCandidate_spec|].
  intros b Hb Hpass. apply Hmin, list_elem_of_filter.
  split; [by apply isCandidate_spec|done].
Qed.

(** [selectAsset] succeeds whenever some asset passes the filter. *)
Lemma selectAsset_succeeds (assets : list Asset) (goos goarch : string)
    (osPhrases archPhrases : list string) (b : Asset) :
  osAliases !! goos = Some osPhrases →
  archAliases !! goarch = Some archPhrases →
  b ∈ assets → passesFilter unicodeLower osPhrases archPhrases b →
  ∃ a, selectAsset unicodeLower sort_Slice assets goos goarch = Ok a.
Proof.
  intros Hos Harch Hb Hpass. unfold selectAsset. rewrite Hos, Harch. simpl.
  set (candidates := filter _ assets).
  assert (b ∈ candidates) as Hin.
  { apply list_elem_of_filter. split; [by apply isCandidate_spec|done]. }
  destruct (Nat.eqb_spec (length candidates) 0) as [Hlen|Hlen].
  { apply length_zero_iff_nil in Hlen. rewrite Hlen in Hin. by apply not_elem_of_nil in Hin. }
  destruct (sorted_candidates_head candidates) as (c & rest & Hs & _).
  { intros Hnil. by rewrite Hnil in Hlen. }
  rewrite Hs. by eexists.
Qed.

Lemma darwin_matches_windows (lower : string) :
  GoStrings.Contains lower "darwin" = true →
  matchesAny lower ["windows"; "win"] = true.
Proof.
  intros Hd. apply matchesAny_spec. exists "win". split.
  - apply list_elem_of_In. simpl. tauto.
  - apply (Contains_trans _ _ _ Hd). reflexivity.
Qed.

(** C9: selecting for (windows, amd64) from the one-asset list
    ["tool_darwin_amd64.tar.gz"] succeeds and returns that asset, whose
    name names a darwin build and does not contain "windows": "win" is a
    phrase of the windows entry of the alias table and matching is by
    substring, so every lowercased name that contains "darwin" matches the
    windows phrases. *)
Theorem selectAsset_windows_returns_darwin (url : string) (size : Z) :
  let a := mkAsset "tool_darwin_amd64.tar.gz" url size in
  selectAsset unicodeLower sort_Slice [a] "windows" "amd64" = Ok a ∧
  osAliases !! "windows" = Some ["windows"; "win"] ∧
  matchesAny (GoStrings.ToLower unicodeLower (Name a)) ["darwin"; "macos"; "osx"] = true ∧
  GoStrings.Contains (GoStrings.ToLower unicodeLower (Name a)) "windows" = false ∧
  ∀ lower, GoStrings.Contains lower "darwin" = true →
           matchesAny lower ["windows"; "win"] = true.
Proof.
  intros a.
  assert (osAliases !! "windows" = Some ["windows"; "win"]) as Hos
    by (vm_compute; reflexivity).
  assert (archAliases !! "amd64" = Some ["amd64"; "x86_64"]) as Harch
    by (vm_compute; reflexivity).
  split; [|split; [done|split; [reflexivity|split; [reflexivity|]]]].
  - unfold selectAsset. rewrite Hos, Harch.
    assert (filter (λ b, isCandidate unicodeLower ["windows"; "win"] ["amd64"; "x86_64"] b = true)
              [a] = [a]) as -> by reflexivity.
    simpl.
    destruct (sort_Slice_contract Asset shorterName [a]) as [Hperm _].
    apply Permutation_singleton_r in Hperm. by rewrite Hperm.
  - apply darwin_matches_windows.
Qed.

End SelectorProperties.

(** Witnesses: the theorems about the selector at concrete inputs, with
    insertion sort for [sort.Slice]. *)

Lemma selectAsset_unsupported_platform_witness :
  ∃ e, selectAsset id insertionSort sampleAssets "plan9" "amd64" = Err e ∧
       errorKind e = UnsupportedPlatform ∧
       selectAsset id insertionSort [] "plan9" "amd64" = Err e.
Proof.
  apply (selectAsset_unsupported_platform id insertionSort sampleAssets "plan9" "amd64").
  left. vm_compute. reflexivity.
Defined.

Lemma selectAsset_no_matching_asset_iff_witness :
  (∃ e, selectAsset id insertionSort sampleAssets "windows" "amd64" = Err e ∧
        errorKind e = NoMatchingAsset) ↔
  (sampleAssets = [] ∨
   ∀ b, b ∈ sampleAssets → ¬ passesFilter id ["windows"; "win"] ["amd64"; "x86_64"] b).
Proof.
  apply (selectAsset_no_matching_asset_iff id insertionSort sampleAssets "windows" "amd64").
  - vm_compute. reflexivity.
  - vm_compute. reflexivity.
Defined.

Lemma selectAsset_returns_shortest_candidate_witness :
  let a := mkAsset "tool_linux_amd64.tar.gz" "https://example.com/1" 10 in
  a ∈ sampleAssets ∧
  passesFilter id ["linux"] ["amd64"; "x86_64"] a ∧
  ∀ b, b ∈ sampleAssets → passesFilter id ["linux"] ["amd64"; "x86_64"] b →
       (GoStrings.len (Name a) ≤ GoStrings.len (Name b))%nat.
Proof.
  apply (selectAsset_returns_shortest_candidate id insertionSort insertionSort_sortsSlices
           sampleAssets "linux" "amd64").
  - vm_compute. reflexivity.
  - vm_compute. reflexivity.
  - vm_compute. reflexivity.
Defined.

Lemma selectAsset_windows_returns_darwin_witness :
  let a := mkAsset "tool_darwin_amd64.tar.gz" "https://example.com/d" 7 in
  selectAsset id insertionSort [a] "windows" "amd64" = Ok a.
Proof.
  exact (proj1 (selectAsset_windows_returns_darwin id insertionSort
                  insertionSort_sortsSlices "https://example.com/d" 7)).
Defined.

(** ** The archive extractor *)

Lemma testbit_execBits (n : Z) :
  0 ≤ n → Z.testbit execBits n = true → n = 0 ∨ n = 3 ∨ n = 6.
Proof.
  intros Hn Hbit. destruct (Z_lt_le_dec 6 n) as [Hgt|Hle].
  - rewrite Z.bits_above_log2 in Hbit; [done|done|]. by change (Z.log2 execBits) with 6.
  - assert (n = 0 ∨ n = 1 ∨ n = 2 ∨ n = 3 ∨ n = 4 ∨ n = 5 ∨ n = 6) as Hcases by lia.
    destruct Hcases as [->|[->|[->|[->|[->|[->| ->]]]]]]; cbv in Hbit; auto; done.
Qed.

Lemma land_execBits_zero (mode : Z) :
  Z.land mode execBits = 0 ↔ ¬ hasExecBit mode.
Proof.
  unfold hasExecBit. split.
  - intros Hz Hbit.
    assert (∀ n, Z.testbit mode n && Z.testbit execBits n = false) as Hall.
    { intros n. by rewrite <- Z.land_spec, Hz, Z.bits_0. }
    pose proof (Hall 0) as H0. pose proof (Hall 3) as H3. pose proof (Hall 6) as H6.
    change (Z.testbit execBits 0) with true in H0.
    change (Z.testbit execBits 3) with true in H3.
    change (Z.testbit execBits 6) with true in H6.
    rewrite andb_true_r in H0, H3, H6. destruct Hbit as [?|[?|?]]; congruence.
  - intros Hno. apply Z.bits_inj'. intros n Hn.
    rewrite Z.land_spec, Z.bits_0.
    destruct (Z.testbit execBits n) eqn:Hbit; [|apply andb_false_r].
    rewrite andb_true_r. apply testbit_execBits in Hbit; [|done].
    destruct (Z.testbit mode n) eqn:Hm; [|done].
    exfalso. apply Hno. destruct Hbit as [->|[->| ->]]; auto.
Qed.

Lemma tar_perm_execBits (hdr : tar.Header) :
  Z.land (tar.FileInfoPerm hdr) execBits = 0 ↔ ¬ hasExecBit (tar.Mode hdr).
Proof.
  unfold tar.FileInfoPerm.
  rewrite <- Z.land_assoc. change (Z.land 511 execBits) with execBits.
  rewrite land_execBits_zero. unfold hasExecBit.
  by rewrite !Z.mod_pow2_bits_low by lia.
Qed.

Lemma tar_skip_test (hdr : tar.Header) :
  negb (Ascii.eqb (tar.Typeflag hdr) tar.TypeReg)
  || (Z.land (tar.FileInfoPerm hdr) execBits =? 0) = false ↔ tarExecutable hdr.
Proof.
  unfold tarExecutable.
  rewrite orb_false_iff, negb_false_iff, Ascii.eqb_eq, Z.eqb_neq, tar_perm_execBits.
  split; intros [Ht Hx]; split; try done.
  - destruct (decide (Z.testbit (tar.Mode hdr) 6 = true)) as [?|H6]; [by left|].
    destruct (decide (Z.testbit (tar.Mode hdr) 3 = true)) as [?|H3]; [by right; left|].
    destruct (decide (Z.testbit (tar.Mode hdr) 0 = true)) as [?|H0]; [by right; right|].
    exfalso. apply Hx. intros [?|[?|?]]; done.
  - tauto.
Qed.

Lemma findInTar_skips (entries : list (tar.Header * result bytes)) (rest : tar.Reader) :
  Forall (λ e, ¬ tarExecutable e.1) entries →
  findInTar (tarPrepend entries rest) = findInTar rest.
Proof.
  induction 1 as [|[hdr body] entries Hskip _ IH]; simpl; [done|].
  destruct (negb _ || _) eqn:Htest; [exact IH|].
  by apply tar_skip_test in Htest.
Qed.

(** C3: on a tar stream, [findInTar] returns the base name and the content
    of the first entry, in stream order, that is a regular file with an
    execute permission bit (owner, group or other); the entries before it
    (directories, symlinks, regular files without such a bit) are skipped
    without error, and when the stream ends with no such entry the outcome
    is the error [NoExecutable], of kind [NoExecutableFound]. *)
Theorem findInTar_first_executable
    (skipped : list (tar.Header * result bytes)) (hdr : tar.Header)
    (data : bytes) (rest : tar.Reader) :
  Forall (λ e, ¬ tarExecutable e.1) skipped →
  (tarExecutable hdr →
   findInTar (tarPrepend skipped (tar.Entry hdr (Ok data) rest))
   = Ok (GoFilepath.Base (tar.Name hdr), data)) ∧
  findInTar (tarPrepend skipped tar.EOF) = Err NoExecutable ∧
  errorKind NoExecutable = NoExecutableFound.
Proof.
  intros Hskip. rewrite !findInTar_skips by done. split; [|done].
  intros Hexec. simpl. by rewrite (proj2 (tar_skip_test hdr) Hexec).
Qed.

(** Two suffixes of one string: one of them is a suffix of the other. *)
Lemma string_app_eq_suffix (p q a b : string) :
  p +:+ a = q +:+ b →
  GoStrings.HasSuffix a b = true ∨ GoStrings.HasSuffix b a = true.
Proof.
  revert q. induction p as [|c p IH]; intros q Heq.
  - left. apply HasSuffix_spec. exists q. by rewrite string_app_nil in Heq.
  - destruct q as [|d q].
    + right. apply HasSuffix_spec. exists (String c p). by rewrite string_app_nil in Heq.
    + rewrite !string_app_cons in Heq. injection Heq as _ Heq. by apply (IH q).
Qed.

Lemma HasSuffix_exclusive (s a b : string) :
  GoStrings.HasSuffix a b = false → GoStrings.HasSuffix b a = false →
  GoStrings.HasSuffix s a = true → GoStrings.HasSuffix s b = false.
Proof.
  intros Hab Hba Ha. destruct (GoStrings.HasSuffix s b) eqn:Hb; [|done].
  apply HasSuffix_spec in Ha as [p Hp]. apply HasSuffix_spec in Hb as [q Hq].
  rewrite Hp in Hq. apply string_app_eq_suffix in Hq as [?|?]; congruence.
Qed.

Lemma zipIsExec_spec (f : zip.File) : zipIsExec f = true ↔ hasExecBit (zip.Mode f).
Proof.
  unfold zipIsExec. rewrite negb_true_iff, Z.eqb_neq, land_execBits_zero.
  unfold hasExecBit. split; [|tauto]. intros Hx.
  destruct (decide (Z.testbit (zip.Mode f) 6 = true)) as [?|H6]; [by left|].
  destruct (decide (Z.testbit (zip.Mode f) 3 = true)) as [?|H3]; [by right; left|].
  destruct (decide (Z.testbit (zip.Mode f) 0 = true)) as [?|H0]; [by right; right|].
  exfalso. apply Hx. intros [?|[?|?]]; done.
Qed.

Lemma zipIsExec_false (f : zip.File) :
  ¬ zipExecutable f → zip.IsDir f = false → zipIsExec f = false.
Proof.
  intros Hno Hdir. destruct (zipIsExec f) eqn:Hx; [|done].
  exfalso. apply Hno. split; [done|]. by apply zipIsExec_spec.
Qed.

Lemma zipNoExt_spec (f : zip.File) :
  zipNoExt f = true ↔ GoFilepath.Ext (GoFilepath.Base (zip.Name f)) = "".
Proof. unfold zipNoExt. apply String.eqb_eq. Qed.

(** An executable entry ends the scan, whatever was seen before it. *)
Lemma findInZipFiles_executable (pre : list zip.File) (f : zip.File)
    (post : list zip.File) (fallback : option zip.File) :
  Forall (λ g, ¬ zipExecutable g) pre → zipExecutable f →
  findInZipFiles (pre ++ f :: post) fallback = zipPayload f.
Proof.
  intros Hpre [Hdir Hexec]. revert fallback.
  induction Hpre as [|g pre Hg _ IH]; intros fallback; simpl.
  - rewrite Hdir, (proj2 (zipIsExec_spec f) Hexec). simpl. done.
  - destruct (zip.IsDir g) eqn:Hgd; [apply IH|].
    rewrite (zipIsExec_false g Hg Hgd). simpl.
    destruct (zipNoExt g); apply IH.
Qed.

(** Without executable entries the scan ends with its fallback. *)
Lemma findInZipFiles_fallback (files : list zip.File) (fb : zip.File) :
  Forall (λ g, ¬ zipExecutable g) files →
  findInZipFiles files (Some fb) = zipPayload fb.
Proof.
  induction 1 as [|g files Hg _ IH]; simpl; [done|].
  destruct (zip.IsDir g) eqn:Hgd; [apply IH|].
  rewrite (zipIsExec_false g Hg Hgd). simpl.
  destruct (zipNoExt g); apply IH.
Qed.

Lemma findInZipFiles_extensionless (pre : list zip.File) (f : zip.File)
    (post : list zip.File) :
  Forall (λ g, ¬ zipExecutable g) (pre ++ f :: post) →
  Forall (λ g, ¬ zipExtensionless g) pre → zipExtensionless f →
  findInZipFiles (pre ++ f :: post) None = zipPayload f.
Proof.
  intros Hall Hpre [Hdir Hext].
  induction Hpre as [|g pre Hg _ IH]; simpl.
  - apply Forall_cons in Hall as [Hf Hpost].
    rewrite Hdir, (zipIsExec_false f Hf Hdir), (proj2 (zipNoExt_spec f) Hext). simpl.
    by apply findInZipFiles_fallback.
  - apply Forall_cons in Hall as [Hgx Hall].
    destruct (zip.IsDir g) eqn:Hgd; [by apply IH|].
    rewrite (zipIsExec_false g Hgx Hgd). simpl.
    destruct (zipNoExt g) eqn:Hgn; [|by apply IH].
    exfalso. apply Hg. split; [done|]. by apply zipNoExt_spec.
Qed.

Lemma findInZipFiles_none (files : list zip.File) :
  Forall (λ g, ¬ zipExecutable g ∧ ¬ zipExtensionless g) files →
  findInZipFiles files None = Err NoExecutable.
Proof.
  induction 1 as [|g files [Hgx Hgn] _ IH]; simpl; [done|].
  destruct (zip.IsDir g) eqn:Hgd; [apply IH|].
  rewrite (zipIsExec_false g Hgx Hgd). simpl.
  destruct (zipNoExt g) eqn:Hn; [|apply IH].
  exfalso. apply Hgn. split; [done|]. by apply zipNoExt_spec.
Qed.

(** X15. The two revisions of the scan of [findInZip] agree: the loop that
    remembers the best entry and breaks at the first executable one
    (src/unnamed/part_001) settles on the same entry, and fails on the same
    listings, as the loop that returns from inside (src/main.go). *)
Lemma findInZipFiles_tmp_agrees (files : list zip.File) :
  findInZipFiles_tmp files = findInZipFiles files None.
Proof.
  unfold findInZipFiles_tmp.
  assert (∀ best, match findBestInZip files best with
                  | None => Err NoExecutable
                  | Some b => zipPayload b
                  end = findInZipFiles files best) as Hgen; [|apply Hgen].
  induction files as [|f files IH]; intros best; simpl.
  - by destruct best.
  - destruct (zip.IsDir f); [apply IH|].
    destruct (zipIsExec f); simpl; [done|].
    destruct (zipNoExt f); simpl; [|apply IH].
    destruct best; simpl; apply IH.
Qed.

Section ExtractorProperties.
Variable unicodeLower : string → string.
Variable io_Reader : Type.
Variable bytes_NewReader : bytes → io_Reader.
Variable gzip_NewReader : io_Reader → result io_Reader.
Variable bzip2_NewReader : io_Reader → io_Reader.
Variable tar_NewReader : io_Reader → tar.Reader.
Variable zip_NewReader : bytes → result (list zip.File).

Local Abbreviation findInZip' := (findInZip zip_NewReader).
Local Abbreviation extractBinary' :=
  (extractBinary unicodeLower io_Reader bytes_NewReader gzip_NewReader
     bzip2_NewReader tar_NewReader zip_NewReader).
Local Abbreviation lower := (GoStrings.ToLower unicodeLower).

(** C2: on a zip archive with the files [files], in listing order:
    (1) if a non-directory entry has an execute permission bit, extraction
    returns the first such entry (base name and content), whatever comes
    before it, extensionless entries included; (2) if no non-directory
    entry has such a bit, it returns the first non-directory entry whose
    base name has no extension; (3) if there is neither, it fails with
    [NoExecutable], of kind [NoExecutableFound]. *)
Theorem findInZip_policy (data : bytes) (files : list zip.File) :
  zip_NewReader data = Ok files →
  (∀ pre f post, files = pre ++ f :: post →
     Forall (λ g, ¬ zipExecutable g) pre → zipExecutable f →
     findInZip' data = zipPayload f) ∧
  (Forall (λ g, ¬ zipExecutable g) files →
   ∀ pre f post, files = pre ++ f :: post →
     Forall (λ g, ¬ zipExtensionless g) pre → zipExtensionless f →
     findInZip' data = zipPayload f) ∧
  (Forall (λ g, ¬ zipExecutable g ∧ ¬ zipExtensionless g) files →
   findInZip' data = Err NoExecutable ∧ errorKind NoExecutable = NoExecutableFound).
Proof.
  intros Hzip. unfold findInZip. rewrite Hzip. repeat split.
  - intros pre f post -> Hpre Hf. by apply findInZipFiles_executable.
  - intros Hall pre f post -> Hpre Hf. by apply findInZipFiles_extensionless.
  - by apply findInZipFiles_none.
Qed.

(** Names that end in .tar.gz or .tgz are gunzipped and read as a tar
    stream; names that end in .tar.bz2 are read as a tar stream through
    bzip2; names that end in .zip go to [findInZip]. *)
Lemma extractBinary_dispatch (data : bytes) (assetName : string) :
  (GoStrings.HasSuffix (lower assetName) ".tar.gz" = true ∨
   GoStrings.HasSuffix (lower assetName) ".tgz" = true →
   extractBinary' data assetName =
   match gzip_NewReader (bytes_NewReader data) with
   | Err e => Err e
   | Ok gz => findInTar (tar_NewReader gz)
   end) ∧
  (GoStrings.HasSuffix (lower assetName) ".tar.bz2" = true →
   extractBinary' data assetName =
   findInTar (tar_NewReader (bzip2_NewReader (bytes_NewReader data)))) ∧
  (GoStrings.HasSuffix (lower assetName) ".zip" = true →
   extractBinary' data assetName = findInZip' data).
Proof.
  unfold extractBinary. repeat split.
  - intros [H|H]; rewrite H; by rewrite ?orb_true_r.
  - intros H.
    rewrite (HasSuffix_exclusive _ ".tar.bz2" ".tar.gz") by done.
    rewrite (HasSuffix_exclusive _ ".tar.bz2" ".tgz") by done.
    by rewrite H.
  - intros H.
    rewrite (HasSuffix_exclusive _ ".zip" ".tar.gz") by done.
    rewrite (HasSuffix_exclusive _ ".zip" ".tgz") by done.
    rewrite (HasSuffix_exclusive _ ".zip" ".tar.bz2") by done.
    by rewrite H.
Qed.

(** C4: for an artifact name whose lowercased form ends in none of .tar.gz,
    .tgz, .tar.bz2 and .zip, [extractBinary] succeeds and returns the
    artifact name and the input bytes as they are; names that end in
    .tar.xz, which the archive filter of the selector accepts, are among
    them. *)
Theorem extractBinary_raw (data : bytes) (assetName : string) :
  (GoStrings.HasSuffix (lower assetName) ".tar.gz" = false →
   GoStrings.HasSuffix (lower assetName) ".tgz" = false →
   GoStrings.HasSuffix (lower assetName) ".tar.bz2" = false →
   GoStrings.HasSuffix (lower assetName) ".zip" = false →
   extractBinary' data assetName = Ok (assetName, data)) ∧
  (GoStrings.HasSuffix (lower assetName) ".tar.xz" = true →
   isArchive (lower assetName) = true ∧
   extractBinary' data assetName = Ok (assetName, data)).
Proof.
  assert (GoStrings.HasSuffix (lower assetName) ".tar.gz" = false →
          GoStrings.HasSuffix (lower assetName) ".tgz" = false →
          GoStrings.HasSuffix (lower assetName) ".tar.bz2" = false →
          GoStrings.HasSuffix (lower assetName) ".zip" = false →
          extractBinary' data assetName = Ok (assetName, data)) as Hraw.
  { intros H1 H2 H3 H4. unfold extractBinary. by rewrite H1, H2, H3, H4. }
  split; [exact Hraw|]. intros Hxz. split.
  - apply isArchive_spec. exists ".tar.xz". split; [|done].
    apply list_elem_of_In. simpl. tauto.
  - apply Hraw; by apply (HasSuffix_exclusive _ ".tar.xz").
Qed.

End ExtractorProperties.

(** Witnesses: the theorems about the extractor at concrete archives. *)

Lemma not_hasExecBit_420 : ¬ hasExecBit 420.
Proof. intros [H|[H|H]]; vm_compute in H; discriminate. Qed.

Lemma findInTar_first_executable_witness :
  findInTar (tarPrepend sampleTarSkipped (tar.Entry sampleTarTool (Ok sampleData) tar.EOF))
  = Ok ("tool", sampleData).
Proof.
  refine (proj1 (findInTar_first_executable sampleTarSkipped sampleTarTool sampleData
                   tar.EOF _) _).
  - repeat constructor; simpl; intros [Ht Hx]; try discriminate.
    by apply not_hasExecBit_420.
  - split; [reflexivity|]. left. reflexivity.
Defined.

Lemma findInZip_policy_witness :
  findInZip (λ _, Ok sampleZipFiles) [] = Ok ("tool.exe", sampleData).
Proof.
  refine (proj1 (findInZip_policy (λ _, Ok sampleZipFiles) [] sampleZipFiles eq_refl)
            [zip.mkFile "tool/" (2147483648 + 493) (Ok []);
             zip.mkFile "tool/LICENSE" 420 (Ok [Byte.x4d])]
            (zip.mkFile "tool/tool.exe" 493 (Ok sampleData))
            [zip.mkFile "tool/README.txt" 420 (Ok [Byte.x23])] eq_refl _ _).
  - repeat constructor; intros [Hd Hx]; try discriminate.
    by apply not_hasExecBit_420.
  - split; [reflexivity|]. left. reflexivity.
Defined.

Lemma extractBinary_raw_witness :
  extractBinary id bytes id Ok id (λ _, tar.EOF) (λ _, Ok []) sampleData "Tool_Linux_amd64.tar.XZ"
  = Ok ("Tool_Linux_amd64.tar.XZ", sampleData).
Proof.
  refine (proj2 (proj2 (extractBinary_raw id bytes id Ok id (λ _, tar.EOF) (λ _, Ok [])
                          sampleData "Tool_Linux_amd64.tar.XZ") _)).
  reflexivity.
Defined.

(** ** Targets *)

Lemma HasPrefix_byte (x c : ascii) (s : string) :
  GoStrings.HasPrefix (String x s) (String c "") = Ascii.eqb x c.
Proof.
  unfold GoStrings.HasPrefix. simpl. destruct (ascii_dec c x) as [->|Hne].
  - rewrite Ascii.eqb_refl. by destruct s.
  - symmetry. apply Ascii.eqb_neq. congruence.
Qed.

Lemma slice_tail (c : ascii) (s : string) :
  GoStrings.slice (String c s) 1 (GoStrings.len (String c s)) = s.
Proof.
  change (GoStrings.len (String c s)) with (S (GoStrings.len s)).
  rewrite slice_cons_S. unfold GoStrings.slice, GoStrings.len.
  rewrite Nat.sub_0_r. apply substring_all.
Qed.

Lemma Cut_byte (c : ascii) (s : string) :
  GoStrings.Cut s (String c "") = (beforeByte c s, afterByte c s, hasByte c s).
Proof.
  unfold GoStrings.Cut. induction s as [|x s IH]; [done|].
  rewrite Index_cons, HasPrefix_byte. simpl.
  destruct (Ascii.eqb x c) eqn:Hx; simpl.
  - by rewrite slice_0_0, slice_tail.
  - destruct (GoStrings.Index s (String c "")) as [j|]; simpl.
    + injection IH as Hb Ha Hh.
      change (GoStrings.len (String c "")) with 1%nat in *.
      change (GoStrings.len (String x s)) with (S (GoStrings.len s)).
      change (S j + 1)%nat with (S (j + 1)).
      rewrite slice_cons_0, slice_cons_S. by rewrite Hb, Ha, <- Hh.
    + injection IH as Hb Ha Hh. by rewrite <- Hb, <- Ha, <- Hh.
Qed.

Lemma Index_byte_None (c : ascii) (s : string) :
  GoStrings.Index s (String c "") = None ↔ hasByte c s = false.
Proof.
  pose proof (Cut_byte c s) as Hcut. unfold GoStrings.Cut in Hcut.
  generalize dependent (hasByte c s). intros h Hcut.
  by destruct (GoStrings.Index s (String c "")); injection Hcut as _ _ <-.
Qed.

Lemma splitLoop_1 (s sep : string) :
  GoStrings.splitLoop 1 s sep =
  match GoStrings.Index s sep with
  | None => [s]
  | Some m => [GoStrings.slice s 0 m;
               GoStrings.slice s (m + GoStrings.len sep) (GoStrings.len s)]
  end.
Proof. reflexivity. Qed.

Lemma SplitN_2_byte (c : ascii) (s : string) :
  GoStrings.SplitN s (String c "") 2 =
  if hasByte c s then [beforeByte c s; afterByte c s] else [s].
Proof.
  pose proof (Cut_byte c s) as Hcut. unfold GoStrings.Cut in Hcut.
  unfold GoStrings.SplitN. destruct s as [|x s]; [done|].
  replace (Nat.min 2 (GoStrings.len (String x s) + 1) - 1)%nat with 1%nat
    by (unfold GoStrings.len; simpl String.length; lia).
  rewrite splitLoop_1.
  generalize dependent (hasByte c (String x s)).
  generalize (beforeByte c (String x s)) (afterByte c (String x s)).
  intros b a h Hcut.
  by destruct (GoStrings.Index (String x s) (String c "")) as [m|];
    injection Hcut as <- <- <-.
Qed.

(** [parseTarget] in terms of the first "@" and the first "/" before it. *)
Lemma parseTarget_eq (s : string) :
  let slug := beforeByte "@" s in
  parseTarget s =
  if hasByte "/" slug
     && negb (String.eqb (beforeByte "/" slug) "")
     && negb (String.eqb (afterByte "/" slug) "")
  then Ok (beforeByte "/" slug, afterByte "/" slug, afterByte "@" s)
  else Err (InvalidTarget s).
Proof.
  unfold parseTarget. rewrite (Cut_byte "@" s), (SplitN_2_byte "/").
  simpl. destruct (hasByte "/" (beforeByte "@" s)); [|done]. simpl.
  destruct (String.eqb (beforeByte "/" _) ""); [done|].
  by destruct (String.eqb (afterByte "/" _) "").
Qed.

Lemma split_at_first_byte (c : ascii) (s owner rest : string) :
  s = owner +:+ String c rest ∧ hasByte c owner = false ↔
  hasByte c s = true ∧ owner = beforeByte c s ∧ rest = afterByte c s.
Proof.
  split.
  - intros [-> Hno]. induction owner as [|x owner IH].
    + rewrite string_app_nil. simpl. by rewrite Ascii.eqb_refl.
    + rewrite string_app_cons. simpl in *.
      apply orb_false_iff in Hno as [Hx Hno]. rewrite Hx. simpl.
      destruct (IH Hno) as (? & ? & ?). repeat split; [done|by f_equal|done].
  - intros (Hhas & -> & ->). induction s as [|x s IH]; [done|]. simpl in *.
    destruct (Ascii.eqb x c) eqn:Hx; simpl in *.
    + apply Ascii.eqb_eq in Hx as ->. by rewrite string_app_nil.
    + destruct (IH Hhas) as [Hs Hno]. rewrite string_app_cons.
      split; [by f_equal|]. simpl. by rewrite Hx.
Qed.

Lemma hasByte_beforeByte (c : ascii) (s : string) : hasByte c (beforeByte c s) = false.
Proof.
  induction s as [|x s IH]; simpl; [done|].
  destruct (Ascii.eqb x c) eqn:Hx; simpl; [done|]. by rewrite Hx.
Qed.

Lemma hasByte_afterByte (c d : ascii) (s : string) :
  hasByte c s = false → hasByte c (afterByte d s) = false.
Proof.
  induction s as [|x s IH]; simpl; [done|].
  intros [Hx Hs]%orb_false_iff. destruct (Ascii.eqb x d); auto.
Qed.

Lemma hasByte_beforeByte_other (c d : ascii) (s : string) :
  hasByte c s = false → hasByte c (beforeByte d s) = false.
Proof.
  induction s as [|x s IH]; simpl; [done|].
  intros [Hx Hs]%orb_false_iff. destruct (Ascii.eqb x d); simpl; [done|].
  by rewrite Hx, IH.
Qed.

(** The parts of a parsed target: the owner has no "/" and no "@", the
    repository has no "@" (it may have further "/"), and both are
    non-empty. *)
Lemma parseTarget_parts (s owner repo tag : string) :
  parseTarget s = Ok (owner, repo, tag) →
  beforeByte "@" s = owner +:+ "/" +:+ repo ∧ tag = afterByte "@" s ∧
  owner ≠ "" ∧ repo ≠ "" ∧
  hasByte "/" owner = false ∧ hasByte "@" owner = false ∧ hasByte "@" repo = false.
Proof.
  rewrite parseTarget_eq. simpl. set (slug := beforeByte "@" s).
  destruct (hasByte "/" slug) eqn:Hhas; [|done]. simpl.
  destruct (String.eqb (beforeByte "/" slug) "") eqn:Ho; [done|]. simpl.
  destruct (String.eqb (afterByte "/" slug) "") eqn:Hr; [done|]. simpl.
  intros [= <- <- <-]. apply String.eqb_neq in Ho, Hr.
  destruct (proj2 (split_at_first_byte "/" slug _ _) (conj Hhas (conj eq_refl eq_refl)))
    as [Hs Hno].
  pose proof (hasByte_beforeByte "@" s) as Hat. fold slug in Hat.
  repeat split; try done.
  - by apply hasByte_beforeByte_other.
  - by apply hasByte_afterByte.
Qed.

(** C10: [parseTarget] fails (with [InvalidTarget]) exactly when the part of
    its input before the first "@" is not of the form owner "/" rest with
    owner free of "/" (the split is at the first "/") and owner and rest
    both non-empty. So a repository part with further slashes is accepted
    ("a/b/c" gives owner "a" and repo "b/c"), and so is an input that ends
    in "@" ("owner/repo@" gives an empty tag). *)
Theorem parseTarget_fails_iff (s : string) :
  (parseTarget s = Err (InvalidTarget s) ↔
   ¬ ∃ owner rest, beforeByte "@" s = owner +:+ "/" +:+ rest ∧
                   hasByte "/" owner = false ∧ owner ≠ "" ∧ rest ≠ "") ∧
  ((∃ e, parseTarget s = Err e) → parseTarget s = Err (InvalidTarget s)) ∧
  parseTarget "a/b/c" = Ok ("a", "b/c", "") ∧
  parseTarget "owner/repo@" = Ok ("owner", "repo", "").
Proof.
  split; [|split; [|done]].
  - rewrite parseTarget_eq. simpl. set (slug := beforeByte "@" s). split.
    + intros Herr (owner & rest & Hslug & Hno & Howner & Hrest).
      destruct (proj1 (split_at_first_byte "/" slug owner rest) (conj Hslug Hno))
        as (Hhas & -> & ->).
      rewrite Hhas in Herr.
      apply String.eqb_neq in Howner, Hrest. by rewrite Howner, Hrest in Herr.
    + intros Hnone.
      destruct (hasByte "/" slug) eqn:Hhas; [|done]. simpl.
      destruct (String.eqb (beforeByte "/" slug) "") eqn:Ho; [done|]. simpl.
      destruct (String.eqb (afterByte "/" slug) "") eqn:Hr; [done|]. simpl.
      exfalso. apply Hnone. exists (beforeByte "/" slug), (afterByte "/" slug).
      apply String.eqb_neq in Ho, Hr.
      destruct (proj2 (split_at_first_byte "/" slug _ _) (conj Hhas (conj eq_refl eq_refl)))
        as [Hs Hno].
      done.
  - intros [e He]. rewrite parseTarget_eq in *. simpl in *.
    by destruct (_ && _).
Qed.

(** ** The installer *)

Lemma RemoveAll_lookup (p : path) (w : World) (q : path) :
  fs (os.RemoveAll p w).2 !! q = if decide (p `prefix_of` q) then None else fs w !! q.
Proof.
  unfold os.RemoveAll. simpl. case_decide as Hp.
  - apply map_lookup_filter_None. right. intros n _ Hn. by apply Hn.
  - destruct (fs w !! q) as [n|] eqn:Hq.
    + by apply map_lookup_filter_Some.
    + apply map_lookup_filter_None. by left.
Qed.

Lemma RemoveAll_Ok (p : path) (w : World) : (os.RemoveAll p w).1 = Ok ().
Proof. reflexivity. Qed.

Section InstallerProperties.
Variable handle : Type.
Variable os_MkdirAll : path → Z → IO unit.
Variable os_OpenFile : path → Z → Z → IO handle.
Variable io_Copy : handle → handle → IO Z.
Variable file_Close : handle → IO unit.
Variable time_Now : IO Z.
Variable os_Chtimes : path → Z → Z → IO unit.
Variable os_Remove : path → IO unit.
Variable os_Symlink : path → path → IO unit.

Local Abbreviation installBinary' :=
  (installBinary handle os_MkdirAll os_OpenFile io_Copy file_Close time_Now
     os_Chtimes os_Remove os_Symlink).

(** C7: when [installBinary] returns an error after [os.MkdirAll] has
    created the version directory <baseDir>/ghinst/<owner>/<repo>@<tag>,
    whichever later step failed, the directory and everything below it
    are gone from the file system it leaves behind. *)
Theorem installBinary_failure_removes_version_dir
    (baseDir : path) (owner repo tag binName : string) (src : handle)
    (w w1 w' : World) (e : error) :
  let installDir := baseDir ++ ["ghinst"; owner; repo +:+ "@" +:+ tag] in
  os_MkdirAll installDir 493 w = (Ok (), w1) →
  installBinary' baseDir owner repo tag binName src w = (Err e, w') →
  ∀ q, installDir `prefix_of` q → fs w' !! q = None.
Proof.
  intros installDir Hmk. unfold installBinary. fold installDir. rewrite Hmk.
  destruct (ioBind _ _ w1) as [[linkPath|e'] w2]; [done|].
  intros [= <- <-] q Hq.
  change (fs (os.RemoveAll installDir w2).2 !! q = None).
  rewrite RemoveAll_lookup. by case_decide.
Qed.

End InstallerProperties.

(** The installer on a full device: the version directory is created, the
    binary is opened in it, the copy fails, and the directory is gone. *)
Lemma installBinary_failure_removes_version_dir_witness :
  failedInstall.1 = Err (LibraryError "no space left on device") ∧
  fs failedInstall.2 !! sampleInstallDir = None.
Proof.
  split; [vm_compute; reflexivity|].
  apply (installBinary_failure_removes_version_dir path sample_MkdirAll sample_OpenFile
           full_Copy sample_Close sample_Now sample_Chtimes sample_Remove sample_Symlink
           sampleBase "junegunn" "fzf" "v0.54.0" "fzf" sampleSrc sampleWorld
           (sample_MkdirAll sampleInstallDir 493 sampleWorld).2 failedInstall.2
           (LibraryError "no space left on device")).
  - vm_compute. reflexivity.
  - vm_compute. reflexivity.
  - done.
Defined.

Example installBinary_failure_world :
  fs failedInstall.2 !! (sampleInstallDir ++ ["fzf"]) = None ∧
  fs failedInstall.2 !! (sampleBase ++ ["ghinst"; "junegunn"]) = Some (Dir 0) ∧
  fs failedInstall.2 !! sampleSrc = Some (RegularFile 0 sampleData).
Proof. vm_compute. repeat split. Qed.

(** The same run succeeds when the copy succeeds: the binary is in the
    version directory and the link in <baseDir>/bin points at it. *)
Example installBinary_success :
  let '(r, w) :=
    installBinary path sample_MkdirAll sample_OpenFile sample_Copy sample_Close sample_Now
      sample_Chtimes sample_Remove sample_Symlink
      sampleBase "junegunn" "fzf" "v0.54.0" "fzf" sampleSrc sampleWorld in
  r = Ok (sampleBase ++ ["bin"; "fzf"]) ∧
  fs w !! sampleInstallDir = Some (Dir 1700000000) ∧
  fs w !! (sampleInstallDir ++ ["fzf"]) = Some (RegularFile 0 sampleData) ∧
  fs w !! (sampleBase ++ ["bin"; "fzf"]) = Some (Symlink 0 (sampleInstallDir ++ ["fzf"])).
Proof. vm_compute. repeat split. Qed.

(** The earlier revision of [installBinary] (src/main.go) has no deferred
    clean-up: when writing the binary fails, the version directory it
    created and the partly written file stay behind. *)
Example installBinary_home_leaves_version_dir :
  let '(r, w) :=
    installBinary_home sample_MkdirAll sample_Remove sample_Symlink (ioRet ["home"; "u"])
      full_WriteFile "junegunn" "fzf" "v0.54.0" "fzf" sampleData sampleWorld in
  r = Err (LibraryError "no space left on device") ∧
  fs w !! sampleInstallDir = Some (Dir 0) ∧
  fs w !! (sampleInstallDir ++ ["fzf"]) = Some (RegularFile 0 []).
Proof. vm_compute. repeat split. Qed.

(** ** Purge *)

Lemma relativeTo_Some (dir p r : path) :
  os.relativeTo dir p = Some r ↔ p = dir ++ r.
Proof.
  revert p. induction dir as [|d dir IH]; intros p; simpl.
  - split; congruence.
  - destruct p as [|x p]; [split; done|].
    case_decide as Hd.
    + subst x. rewrite IH. split; congruence.
    + split; [done|]. congruence.
Qed.

Lemma childEntry_Some (dir : path) (kv : path * node) (e : os.DirEntry) :
  os.childEntry dir kv = Some e ↔
  kv.1 = dir ++ [os.Name e] ∧
  e = os.mkDirEntry (os.Name e) (nodeIsDir kv.2) (os.mkFileInfo (nodeModTime kv.2)).
Proof.
  unfold os.childEntry. split.
  - destruct (os.relativeTo dir kv.1) as [[|name [|? ?]]|] eqn:Hrel; try done.
    intros [= <-]. by apply relativeTo_Some in Hrel.
  - intros [Hkey ->]. simpl in Hkey.
    by rewrite (proj2 (relativeTo_Some dir kv.1 _) Hkey).
Qed.

Lemma childEntries_NoDup (dir : path) (l : list (path * node)) :
  NoDup l.*1 → NoDup (os.Name <$> omap (os.childEntry dir) l).
Proof.
  induction l as [|kv l IH]; simpl; [constructor|].
  intros [Hkv Hl]%NoDup_cons. specialize (IH Hl).
  destruct (os.childEntry dir kv) as [e|] eqn:He; [|done].
  simpl. constructor; [|done].
  intros Hin. apply list_elem_of_fmap in Hin as (e' & Hname & He').
  apply list_elem_of_omap in He' as (kv' & Hkv' & He').
  apply childEntry_Some in He as [Hk _]. apply childEntry_Some in He' as [Hk' _].
  apply Hkv. apply list_elem_of_fmap. exists kv'. split; [congruence|done].
Qed.

(** What a successful [os.ReadDir] returns: one entry, and only one, for
    each node directly below the directory; the world is left as it is. *)
Lemma ReadDir_Ok (dir : path) (w w' : World) (entries : list os.DirEntry) :
  os.ReadDir dir w = (Ok entries, w') →
  w' = w ∧
  NoDup (os.Name <$> entries) ∧
  ∀ e, e ∈ entries ↔
       ∃ n, fs w !! (dir ++ [os.Name e]) = Some n ∧
            os.IsDir e = nodeIsDir n ∧ os.ModTime (os.Info e) = nodeModTime n.
Proof.
  unfold os.ReadDir. destruct (fs w !! dir) as [[]|]; try done.
  intros [= <- <-]. split; [done|]. split.
  - rewrite merge_sort_Permutation. apply childEntries_NoDup, NoDup_fst_map_to_list.
  - intros e. rewrite merge_sort_Permutation, list_elem_of_omap. split.
    + intros ([q n] & Hin & He). apply elem_of_map_to_list in Hin.
      apply childEntry_Some in He as [Hq He]. simpl in *. subst q.
      exists n. split; [done|]. by rewrite He.
    + intros (n & Hn & Hd & Ht). exists (dir ++ [os.Name e], n). split.
      * by apply elem_of_map_to_list.
      * apply childEntry_Some. simpl. split; [done|].
        destruct e as [name isdir [t]]. simpl in *. by subst.
Qed.

Lemma ReadDir_Err (dir : path) (w : World) :
  (∀ t, fs w !! dir ≠ Some (Dir t)) →
  ∃ e, os.ReadDir dir w = (Err e, w).
Proof.
  intros Hno. unfold os.ReadDir.
  destruct (fs w !! dir) as [[t| |]|]; try by eexists. by destruct (Hno t).
Qed.

Lemma ReadDir_is_Ok (dir : path) (w : World) (t : Z) :
  fs w !! dir = Some (Dir t) → ∃ entries, os.ReadDir dir w = (Ok entries, w).
Proof. intros Hd. unfold os.ReadDir. rewrite Hd. by eexists. Qed.

Lemma isVersionOf_spec (repo : string) (e : os.DirEntry) :
  isVersionOf repo e = true ↔ os.IsDir e = true ∧ isVersionName repo (os.Name e).
Proof.
  unfold isVersionOf, isVersionName. rewrite (Cut_byte "@").
  rewrite !andb_true_iff, String.eqb_eq. split.
  - intros (Hd & Hhas & Hrepo). split; [done|]. exists (afterByte "@" (os.Name e)).
    apply split_at_first_byte. by rewrite Hrepo.
  - intros (Hd & tag & Hsplit). apply split_at_first_byte in Hsplit as (? & ? & ?). done.
Qed.

Lemma olderThan_StrictWeakOrder : StrictWeakOrder olderThan.
Proof.
  unfold olderThan. split.
  - intros x. apply Z.ltb_irrefl.
  - intros x y z. rewrite !Z.ltb_lt. lia.
  - intros x y z. rewrite !Z.ltb_ge. lia.
Qed.

(** The second loop of [purge] removes the directories it is given, and
    nothing else, and reports each. *)
Lemma purgeEach_spec (owner : string) (ownerDir : path) (vs : list os.DirEntry) (w : World) :
  ∃ w', purgeEach owner ownerDir vs w = (Ok (), w') ∧
        stdout w' = stdout w ++ (purgedLine owner <$> vs) ∧
        ∀ q, (Exists (λ v, (ownerDir ++ [os.Name v]) `prefix_of` q) vs →
              fs w' !! q = None) ∧
             (¬ Exists (λ v, (ownerDir ++ [os.Name v]) `prefix_of` q) vs →
              fs w' !! q = fs w !! q).
Proof.
  revert w. induction vs as [|v vs IH]; intros w.
  - exists w. split; [done|]. split; [by rewrite app_nil_r|].
    intros q. split; [|done]. by intros He%Exists_nil.
  - destruct (IH (printf (purgedLine owner v)
                    (os.RemoveAll (ownerDir ++ [os.Name v]) w).2).2)
      as (w' & Hrun & Hout & Hfs).
    exists w'. split; [exact Hrun|]. split.
    + rewrite Hout. simpl. by rewrite <- app_assoc.
    + intros q. destruct (Hfs q) as [Hgone Hkept].
      change (fs (printf (purgedLine owner v)
                    (os.RemoveAll (ownerDir ++ [os.Name v]) w).2).2)
        with (fs (os.RemoveAll (ownerDir ++ [os.Name v]) w).2) in Hkept.
      rewrite RemoveAll_lookup in Hkept. split.
      * intros Hex. destruct (decide (Exists (λ v0, (ownerDir ++ [os.Name v0]) `prefix_of` q) vs))
          as [Hvs|Hvs]; [by apply Hgone|].
        rewrite (Hkept Hvs). apply Exists_cons in Hex as [Hv|?]; [|done].
        by rewrite decide_True.
      * intros Hne. assert (¬ Exists (λ v0, (ownerDir ++ [os.Name v0]) `prefix_of` q) vs) as Hvs
          by (intros ?; apply Hne; by right).
        rewrite (Hkept Hvs). rewrite decide_False; [done|].
        intros ?. apply Hne. by left.
Qed.

Lemma versions_spec (ownerDir : path) (repo : string) (w : World)
    (entries : list os.DirEntry) (e : os.DirEntry) :
  os.ReadDir ownerDir w = (Ok entries, w) →
  e ∈ filter (λ e, isVersionOf repo e = true) entries ↔
  os.IsDir e = true ∧ versionDir w ownerDir repo (os.Name e) (os.ModTime (os.Info e)).
Proof.
  intros (_ & _ & Hin)%ReadDir_Ok.
  rewrite list_elem_of_filter, isVersionOf_spec, Hin. unfold versionDir. split.
  - intros ([Hd Hname] & n & Hn & Hnd & Ht). split; [done|]. split; [|done].
    rewrite Hd in Hnd. destruct n as [t| |]; try done. simpl in Ht. by rewrite Ht.
  - intros (Hd & Hn & Hname). split; [done|]. eexists. split; [exact Hn|]. done.
Qed.

Lemma versionDir_entry (ownerDir : path) (repo name : string) (t : Z) (w : World)
    (entries : list os.DirEntry) :
  os.ReadDir ownerDir w = (Ok entries, w) →
  versionDir w ownerDir repo name t →
  os.mkDirEntry name true (os.mkFileInfo t) ∈ filter (λ e, isVersionOf repo e = true) entries.
Proof. intros Hrd Hv. by apply (versions_spec _ _ _ _ _ Hrd). Qed.

Lemma length_ge_2 {A} (l : list A) (x y : A) :
  x ∈ l → y ∈ l → x ≠ y → (2 ≤ length l)%nat.
Proof.
  intros Hx Hy Hne. destruct l as [|a [|b l]]; simpl; [| |lia].
  - by apply not_elem_of_nil in Hx.
  - apply list_elem_of_singleton in Hx, Hy. congruence.
Qed.

Lemma NoDup_fmap_length_le_1 {A B} (f : A → B) (l : list A) :
  NoDup (f <$> l) → (∀ x y, x ∈ l → y ∈ l → f x = f y) → (length l ≤ 1)%nat.
Proof.
  intros Hnd Hsame. destruct l as [|a [|b l]]; simpl; [lia|lia|].
  exfalso. simpl in Hnd. apply NoDup_cons in Hnd as [Hab _].
  apply Hab. rewrite (Hsame a b); [left|left|right; left].
Qed.

Section PurgeProperties.
Variable sort_Slice : ∀ A : Type, (A → A → bool) → list A → list A.
Hypothesis sort_Slice_contract : sortsSlices sort_Slice.

(** The sorted versions end with one that no other is newer than. *)
Lemma sorted_versions_last (vs : list os.DirEntry) :
  (1 < length vs)%nat →
  ∃ init kept,
    sort_Slice os.DirEntry olderThan vs = init ++ [kept] ∧
    take (length (sort_Slice os.DirEntry olderThan vs) - 1)
      (sort_Slice os.DirEntry olderThan vs) = init ∧
    init ++ [kept] ≡ₚ vs ∧
    ∀ v, v ∈ init → os.ModTime (os.Info v) ≤ os.ModTime (os.Info kept).
Proof.
  intros Hlen.
  destruct (sort_Slice_contract os.DirEntry olderThan vs) as [Hperm Hsorted].
  specialize (Hsorted olderThan_StrictWeakOrder).
  destruct (sort_Slice os.DirEntry olderThan vs) as [|x sorted] eqn:Hs.
  { apply Permutation_length in Hperm. simpl in Hperm. lia. }
  rewrite <- Hs in *.
  assert (sort_Slice os.DirEntry olderThan vs ≠ []) as Hne by (by rewrite Hs).
  destruct (exists_last Hne) as (init & kept & Heq).
  exists init, kept. rewrite Heq in *. split; [done|]. split; [|split; [done|]].
  - rewrite length_app. simpl. apply take_app_length'. lia.
  - intros v Hv. apply StronglySorted_app in Hsorted as (Hlt & _ & _).
    specialize (Hlt v kept Hv (list_elem_of_here _ _)).
    unfold olderThan in Hlt. by apply Z.ltb_ge in Hlt.
Qed.

(** C8, as the code has it. With the owner directory
    <baseDir>/ghinst/<owner> present: [purge] succeeds; when its version
    directories of repo (the directories named repo@tag) number at most one
    it changes nothing; when there are several it keeps one of them, none
    of the others being newer, removes every other one with all below it,
    and leaves every other path as it was. Without the owner directory
    [purge] fails with the error of the directory listing and changes
    nothing. *)
Theorem purge_keeps_newest (baseDir : path) (owner repo : string) (w : World) :
  let ownerDir := baseDir ++ ["ghinst"; owner] in
  (∀ t0, fs w !! ownerDir = Some (Dir t0) →
   ∃ w', purge sort_Slice baseDir owner repo w = (Ok (), w') ∧
         purgeOutcome w w' ownerDir repo) ∧
  ((∀ t0, fs w !! ownerDir ≠ Some (Dir t0)) →
   ∃ e, purge sort_Slice baseDir owner repo w = (Err e, w)).
Proof.
  intros ownerDir. split.
  2: { intros Hno. destruct (ReadDir_Err ownerDir w Hno) as [e He].
       exists e. unfold purge, ioBind. fold ownerDir. by rewrite He. }
  intros t0 Hdir. destruct (ReadDir_is_Ok ownerDir w t0 Hdir) as [entries Hrd].
  pose proof (ReadDir_Ok _ _ _ _ Hrd) as (_ & Hnodup & _).
  pose proof (λ e, versions_spec ownerDir repo w entries e Hrd) as Hvs.
  pose proof (λ n t, versionDir_entry ownerDir repo n t w entries Hrd) as Hentry.
  unfold purge, ioBind. fold ownerDir. rewrite Hrd.
  set (vs := filter (λ e, isVersionOf repo e = true) entries) in *.
  assert (NoDup (os.Name <$> vs)) as Hvsnd.
  { eapply sublist_NoDup; [exact Hnodup|]. apply fmap_sublist, sublist_filter. }
  destruct (Nat.leb_spec (length vs) 1) as [Hle|Hgt].
  - exists w. split; [done|]. split; [done|].
    intros (n1 & t1 & n2 & t2 & H1 & H2 & Hne). exfalso.
    pose proof (length_ge_2 vs _ _ (Hentry _ _ H1) (Hentry _ _ H2)) as Hge.
    enough (2 ≤ length vs)%nat by lia. apply Hge. congruence.
  - destruct (sorted_versions_last vs Hgt) as (init & kept & Hs & Htake & Hperm & Hmax).
    rewrite Htake.
    destruct (purgeEach_spec owner ownerDir init w) as (w' & Hrun & _ & Hfs).
    exists w'. split; [exact Hrun|]. split.
    { intros Hsame. exfalso. enough (length vs ≤ 1)%nat by lia.
      apply (NoDup_fmap_length_le_1 os.Name); [done|].
      intros x y [_ Hx]%Hvs [_ Hy]%Hvs. by eapply Hsame. }
    intros _.
    assert (NoDup (os.Name <$> init ++ [kept])) as Hnd by by rewrite Hperm.
    rewrite fmap_app in Hnd. apply NoDup_app in Hnd as (_ & Hdisj & _).
    assert (∀ v, v ∈ init → os.Name v ≠ os.Name kept) as Hnames.
    { intros v Hv Heq. apply (Hdisj (os.Name v)).
      - apply list_elem_of_fmap. eauto.
      - rewrite Heq. apply list_elem_of_here. }
    assert (∀ v, v ∈ vs ↔ v ∈ init ∨ v = kept) as Hsplit.
    { intros v. rewrite <- Hperm, elem_of_app, list_elem_of_singleton. done. }
    assert (kept ∈ vs) as Hkept by (apply Hsplit; by right).
    apply Hvs in Hkept as [_ Hkept].
    assert (∀ q, (∀ n t, versionDir w ownerDir repo n t → n ≠ os.Name kept →
                         ¬ (ownerDir ++ [n]) `prefix_of` q) →
                 fs w' !! q = fs w !! q) as Hframe.
    { intros q Hq. apply (Hfs q). intros (v & Hv & Hpre)%Exists_exists.
      assert (v ∈ vs) as [_ Hvd]%Hvs by (apply Hsplit; by left).
      by apply (Hq _ _ Hvd (Hnames v Hv)). }
    exists (os.Name kept), (os.ModTime (os.Info kept)).
    split; [done|]. split; [|split; [|split; [|exact Hframe]]].
    + intros n t Hv. apply Hentry, Hsplit in Hv as [Hv| <-]; [|done]. by apply Hmax in Hv.
    + rewrite Hframe; [by destruct Hkept|].
      intros n t _ Hne Hpre%prefix_app_inv%prefix_cons_inv_1. done.
    + intros n t q Hv Hne Hq. apply (Hfs q). apply Exists_exists.
      exists (os.mkDirEntry n true (os.mkFileInfo t)). split; [|done].
      apply Hentry, Hsplit in Hv as [Hv| <-]; done.
Qed.

End PurgeProperties.

(** [purge] on sample worlds, with insertion sort for [sort.Slice]. *)

Lemma purge_keeps_newest_witness :
  ∃ w', purge insertionSort sampleBase "junegunn" "fzf" purgeWorld = (Ok (), w') ∧
        purgeOutcome purgeWorld w' sampleOwnerDir "fzf".
Proof.
  refine (proj1 (purge_keeps_newest insertionSort insertionSort_sortsSlices
                   sampleBase "junegunn" "fzf" purgeWorld) 10 _).
  vm_compute. reflexivity.
Defined.

(** The scenario of the tests: the older version goes, the newer stays, the
    deletion is reported, and a second run changes nothing. *)
Example purge_two_versions :
  purgedWorld.1 = Ok () ∧
  fs purgedWorld.2 !! (sampleOwnerDir ++ ["fzf@v0.53.0"]) = None ∧
  fs purgedWorld.2 !! (sampleOwnerDir ++ ["fzf@v0.53.0"; "fzf"]) = None ∧
  fs purgedWorld.2 !! (sampleOwnerDir ++ ["fzf@v0.54.0"]) = Some (Dir 200) ∧
  fs purgedWorld.2 !! (sampleOwnerDir ++ ["fzf@v0.54.0"; "fzf"])
  = Some (RegularFile 200 sampleData) ∧
  fs purgedWorld.2 !! (sampleOwnerDir ++ ["fzf-tmux@v1"]) = Some (Dir 300) ∧
  fs purgedWorld.2 !! (sampleOwnerDir ++ ["fzf@notes"]) = Some (RegularFile 400 []) ∧
  stdout purgedWorld.2 = ["purged junegunn/fzf@v0.53.0" +:+ newline] ∧
  purge insertionSort sampleBase "junegunn" "fzf" purgedWorld.2 = (Ok (), purgedWorld.2).
Proof. repeat split; vm_compute; reflexivity. Qed.

(** C8 as stated fails where the owner directory does not exist: there is
    no version directory of the repository (zero), yet [purge] does not
    return success; it returns the error of [os.ReadDir]. *)
Lemma purge_without_owner_dir_fails :
  let w := mkWorld ∅ [] in
  (∀ n t, ¬ versionDir w sampleOwnerDir "fzf" n t) ∧
  purge insertionSort sampleBase "junegunn" "fzf" w
  = (Err (LibraryError "no such file or directory"), w) ∧
  purge insertionSort sampleBase "junegunn" "fzf" w ≠ (Ok (), w).
Proof.
  split; [|split; [reflexivity|discriminate]].
  intros n t [Hn _]. simpl in Hn. by rewrite lookup_empty in Hn.
Qed.

(** ** The scenarios of the test suite (src/main_test.go) *)

Example TestParseTarget :
  parseTarget "owner/repo" = Ok ("owner", "repo", "") ∧
  parseTarget "owner/repo@v1.2.3" = Ok ("owner", "repo", "v1.2.3") ∧
  parseTarget "nodash" = Err (InvalidTarget "nodash") ∧
  parseTarget "/repo" = Err (InvalidTarget "/repo") ∧
  parseTarget "owner/" = Err (InvalidTarget "owner/").
Proof. repeat split. Qed.

Example TestSelectAsset :
  selectAsset id insertionSort sampleAssets "linux" "amd64"
  = Ok (mkAsset "tool_linux_amd64.tar.gz" "https://example.com/1" 10) ∧
  selectAsset id insertionSort sampleAssets "darwin" "arm64"
  = Ok (mkAsset "tool_macos_arm64.tar.gz" "https://example.com/3" 12) ∧
  selectAsset id insertionSort sampleAssets "windows" "amd64"
  = Err (NoAssetFound "windows" "amd64").
Proof. repeat split; vm_compute; reflexivity. Qed.

Example TestIsArchive :
  isArchive "tool.tar.gz" = true ∧ isArchive "tool.tgz" = true ∧
  isArchive "tool.tar.bz2" = true ∧ isArchive "tool.zip" = true ∧
  isArchive "tool.deb" = false ∧ isArchive "tool.rpm" = false ∧
  isArchive "tool.exe" = false ∧ isArchive "tool.sha256" = false.
Proof. repeat split. Qed.

Example TestFindInTar :
  findInTar (tar.Entry (tar.mkHeader "0" "tool" 493) (Ok sampleData) tar.EOF)
  = Ok ("tool", sampleData) ∧
  findInTar (tar.Entry (tar.mkHeader "0" "readme.txt" 420) (Ok sampleData) tar.EOF)
  = Err NoExecutable.
Proof. repeat split. Qed.

Example TestFindInZip :
  findInZipFiles [zip.mkFile "tool" 493 (Ok sampleData)] None = Ok ("tool", sampleData) ∧
  findInZipFiles [zip.mkFile "mytool" 420 (Ok sampleData)] None = Ok ("mytool", sampleData) ∧
  findInZipFiles [zip.mkFile "tool.txt" 420 (Ok sampleData)] None = Err NoExecutable.
Proof. repeat split. Qed.

(** An extensionless file that is not executable, listed first, does not
    win over a later executable entry. *)
Example findInZip_executable_after_fallback :
  findInZipFiles
    [ zip.mkFile "LICENSE" 420 (Ok []); zip.mkFile "bin/tool.bin" 493 (Ok sampleData) ] None
  = Ok ("tool.bin", sampleData).
Proof. reflexivity. Qed.

(** * Further properties of the code *)

(** ** More on the selector *)

Section SelectorFurther.
Variable unicodeLower : string → string.
Variable sort_Slice : ∀ A : Type, (A → A → bool) → list A → list A.
Hypothesis sort_Slice_contract : sortsSlices sort_Slice.

Local Abbreviation selectAsset' := (selectAsset unicodeLower sort_Slice).
Local Abbreviation passes := (passesFilter unicodeLower).
Local Abbreviation lowered := (GoStrings.ToLower unicodeLower).

Lemma candidates_elem osPhrases archPhrases (assets : list Asset) (b : Asset) :
  b ∈ filter (λ a, isCandidate unicodeLower osPhrases archPhrases a = true) assets ↔
  b ∈ assets ∧ passes osPhrases archPhrases b.
Proof. rewrite list_elem_of_filter, isCandidate_spec. tauto. Qed.

(** What a successful selection went through: both table lookups, and a
    candidate of the list at the head of the sorted candidates. *)
Lemma selectAsset_Ok_inv (assets : list Asset) (goos goarch : string) (a : Asset) :
  selectAsset' assets goos goarch = Ok a →
  ∃ osPhrases archPhrases,
    osAliases !! goos = Some osPhrases ∧ archAliases !! goarch = Some archPhrases ∧
    a ∈ assets ∧ passes osPhrases archPhrases a ∧
    ∀ b, b ∈ assets → passes osPhrases archPhrases b →
         (GoStrings.len (Name a) ≤ GoStrings.len (Name b))%nat.
Proof.
  unfold selectAsset.
  destruct (osAliases !! goos) as [osPhrases|]; [|done].
  destruct (archAliases !! goarch) as [archPhrases|]; [|done]. simpl.
  set (candidates := filter _ assets).
  destruct (Nat.eqb_spec (length candidates) 0) as [Hlen|Hlen]; [done|].
  destruct (sorted_candidates_head sort_Slice sort_Slice_contract candidates)
    as (c & rest & Hs & Hc & Hmin).
  { intros Hnil. by rewrite Hnil in Hlen. }
  rewrite Hs. intros [= <-]. exists osPhrases, archPhrases.
  apply candidates_elem in Hc as [Hin Hpass]. do 4 (split; [done|]).
  intros b Hb Hbp. apply Hmin, candidates_elem. done.
Qed.

Lemma selectAsset_Ok_intro (assets : list Asset) (goos goarch : string)
    (osPhrases archPhrases : list string) (b : Asset) :
  osAliases !! goos = Some osPhrases →
  archAliases !! goarch = Some archPhrases →
  b ∈ assets → passes osPhrases archPhrases b →
  ∃ a, selectAsset' assets goos goarch = Ok a.
Proof. apply selectAsset_succeeds, sort_Slice_contract. Qed.

(** X1. When one asset of the list passes the filter and every other
    passing asset has a strictly longer name, [selectAsset] returns that
    asset: wherever it stands in the list, whatever the (unstable) sort
    does with the others. *)
Theorem selectAsset_strict_minimum (assets : list Asset) (goos goarch : string)
    (osPhrases archPhrases : list string) (a : Asset) :
  osAliases !! goos = Some osPhrases →
  archAliases !! goarch = Some archPhrases →
  a ∈ assets → passes osPhrases archPhrases a →
  (∀ b, b ∈ assets → passes osPhrases archPhrases b →
        b = a ∨ (GoStrings.len (Name a) < GoStrings.len (Name b))%nat) →
  selectAsset' assets goos goarch = Ok a.
Proof.
  intros Hos Harch Ha Hpass Hstrict.
  destruct (selectAsset_Ok_intro assets goos goarch _ _ a Hos Harch Ha Hpass) as [c Hc].
  rewrite Hc. f_equal.
  apply selectAsset_Ok_inv in Hc as (osP & archP & Hos' & Harch' & Hcin & Hcpass & Hmin).
  rewrite Hos in Hos'. rewrite Harch in Harch'. simplify_eq.
  destruct (Hstrict c Hcin Hcpass) as [->|Hlt]; [done|].
  specialize (Hmin a Ha Hpass). lia.
Qed.

(** X2. Offering more assets never loses a selection: if [selectAsset]
    succeeds on a list, it succeeds on every list that contains the same
    assets, with a name that is no longer. *)
Theorem selectAsset_monotone (assets assets' : list Asset) (goos goarch : string)
    (a : Asset) :
  (∀ b, b ∈ assets → b ∈ assets') →
  selectAsset' assets goos goarch = Ok a →
  ∃ a', selectAsset' assets' goos goarch = Ok a' ∧
        (GoStrings.len (Name a') ≤ GoStrings.len (Name a))%nat.
Proof.
  intros Hsub (osP & archP & Hos & Harch & Hin & Hpass & _)%selectAsset_Ok_inv.
  destruct (selectAsset_Ok_intro assets' goos goarch _ _ a Hos Harch (Hsub _ Hin) Hpass)
    as [a' Ha'].
  exists a'. split; [done|].
  apply selectAsset_Ok_inv in Ha' as (osP' & archP' & Hos' & Harch' & _ & _ & Hmin).
  rewrite Hos in Hos'. rewrite Harch in Harch'. simplify_eq.
  apply Hmin; [by apply Hsub|done].
Qed.

Lemma foreignSuffix_not_archive (name suffix : string) :
  foreignSuffix suffix = true → GoStrings.HasSuffix name suffix = true →
  isArchive name = false.
Proof.
  intros Hf Hs. destruct (isArchive name) eqn:Harc; [|done]. exfalso.
  unfold isArchive in Harc. apply existsb_exists in Harc as (ext & Hext & Hname).
  unfold foreignSuffix in Hf. rewrite forallb_forall in Hf.
  specialize (Hf ext Hext). apply andb_true_iff in Hf as [H1 H2].
  apply negb_true_iff in H1, H2.
  by rewrite (HasSuffix_exclusive name suffix ext H1 H2 Hs) in Hname.
Qed.

(** X3. [selectAsset] never returns a companion file: an asset whose
    lowercased name ends in a suffix foreign to the archive extensions
    (.sha256, .sbom, .sig, .asc, ...) is no candidate, so it is never
    returned, also when no shorter archive is in the list. *)
Theorem selectAsset_never_companion (assets : list Asset) (goos goarch : string)
    (a : Asset) (suffix : string) :
  foreignSuffix suffix = true →
  selectAsset' assets goos goarch = Ok a →
  GoStrings.HasSuffix (lowered (Name a)) suffix = false.
Proof.
  intros Hf (osP & archP & _ & _ & _ & Hpass & _)%selectAsset_Ok_inv.
  destruct (GoStrings.HasSuffix (lowered (Name a)) suffix) eqn:Hs; [|done].
  apply (foreignSuffix_not_archive _ _ Hf) in Hs.
  destruct Hpass as (_ & _ & Harc). apply isArchive_spec in Harc. congruence.
Qed.

End SelectorFurther.

Lemma selectAsset_strict_minimum_witness :
  selectAsset id insertionSort (rev sampleAssets) "linux" "amd64"
  = Ok (mkAsset "tool_linux_amd64.tar.gz" "https://example.com/1" 10).
Proof.
  apply (selectAsset_strict_minimum id insertionSort insertionSort_sortsSlices
           (rev sampleAssets) "linux" "amd64" ["linux"] ["amd64"; "x86_64"]).
  - vm_compute. reflexivity.
  - vm_compute. reflexivity.
  - apply list_elem_of_In. simpl. tauto.
  - repeat split; [exists "linux"|exists "amd64"|exists ".tar.gz"];
      (split; [apply list_elem_of_In; simpl; tauto|reflexivity]).
  - intros b Hb ((p & Hp & Hc) & _ & ext & Hext & Hsuf).
    apply list_elem_of_In in Hb, Hp, Hext. simpl in Hb, Hp, Hext.
    destruct Hb as [<-|[<-|[<-|[<-|[]]]]]; try (by left); exfalso.
    all: destruct Hp as [<-|[]]; try (vm_compute in Hc; discriminate).
    all: destruct Hext as [<-|[<-|[<-|[<-|[<-|[]]]]]]; vm_compute in Hsuf; discriminate.
Defined.

Lemma selectAsset_monotone_witness :
  ∃ a', selectAsset id insertionSort
          (mkAsset "t_linux_amd64.zip" "https://example.com/0" 9 :: sampleAssets)
          "linux" "amd64" = Ok a' ∧
        (GoStrings.len (Name a') ≤ GoStrings.len "tool_linux_amd64.tar.gz")%nat.
Proof.
  apply (selectAsset_monotone id insertionSort insertionSort_sortsSlices sampleAssets
           (mkAsset "t_linux_amd64.zip" "https://example.com/0" 9 :: sampleAssets)
           "linux" "amd64" (mkAsset "tool_linux_amd64.tar.gz" "https://example.com/1" 10)).
  - intros b Hb. by right.
  - vm_compute. reflexivity.
Defined.

Lemma selectAsset_never_companion_witness :
  GoStrings.HasSuffix "tool_linux_amd64.tar.gz" ".sha256" = false.
Proof.
  apply (selectAsset_never_companion id insertionSort insertionSort_sortsSlices
           sampleAssets "linux" "amd64"
           (mkAsset "tool_linux_amd64.tar.gz" "https://example.com/1" 10) ".sha256").
  - vm_compute. reflexivity.
  - vm_compute. reflexivity.
Defined.

Example foreignSuffix_examples :
  foreignSuffix ".sha256" = true ∧ foreignSuffix ".sbom" = true ∧
  foreignSuffix ".sig" = true ∧ foreignSuffix ".asc" = true ∧
  foreignSuffix ".deb" = true ∧ foreignSuffix ".gz" = false.
Proof. repeat split. Qed.

(** ** From the selector to the extractor *)

Section SelectThenExtract.
Variable unicodeLower : string → string.
Variable sort_Slice : ∀ A : Type, (A → A → bool) → list A → list A.
Hypothesis sort_Slice_contract : sortsSlices sort_Slice.
Variable io_Reader : Type.
Variable bytes_NewReader : bytes → io_Reader.
Variable gzip_NewReader : io_Reader → result io_Reader.
Variable bzip2_NewReader : io_Reader → io_Reader.
Variable tar_NewReader : io_Reader → tar.Reader.
Variable zip_NewReader : bytes → result (list zip.File).

Local Abbreviation extract :=
  (extractBinary unicodeLower io_Reader bytes_NewReader gzip_NewReader
     bzip2_NewReader tar_NewReader zip_NewReader).

(** X4. What [main] hands from [selectAsset] to [extractBinary]: the
    name of a selected asset always ends in an archive extension, so its
    payload is unpacked as a gzipped tar, a bzip2ed tar or a zip, except
    for a name in .tar.xz, the only one for which the payload is handed
    back as it is. The branch for raw binaries is reached for no other
    selected asset. *)
Theorem selected_asset_extraction (assets : list Asset) (goos goarch : string)
    (a : Asset) (data : bytes) :
  selectAsset unicodeLower sort_Slice assets goos goarch = Ok a →
  let lower := GoStrings.ToLower unicodeLower (Name a) in
  (GoStrings.HasSuffix lower ".tar.xz" = true ∧
   extract data (Name a) = Ok (Name a, data)) ∨
  ((GoStrings.HasSuffix lower ".tar.gz" = true ∨ GoStrings.HasSuffix lower ".tgz" = true) ∧
   extract data (Name a) =
   match gzip_NewReader (bytes_NewReader data) with
   | Err e => Err e
   | Ok gz => findInTar (tar_NewReader gz)
   end) ∨
  (GoStrings.HasSuffix lower ".tar.bz2" = true ∧
   extract data (Name a) =
   findInTar (tar_NewReader (bzip2_NewReader (bytes_NewReader data)))) ∨
  (GoStrings.HasSuffix lower ".zip" = true ∧
   extract data (Name a) = findInZip zip_NewReader data).
Proof.
  intros Hsel lower.
  apply (selectAsset_Ok_inv _ _ sort_Slice_contract) in Hsel
    as (osP & archP & _ & _ & _ & (_ & _ & ext & Hext & Hsuf) & _).
  fold lower in Hsuf.
  pose proof (extractBinary_dispatch unicodeLower io_Reader bytes_NewReader gzip_NewReader
                bzip2_NewReader tar_NewReader zip_NewReader data (Name a))
    as (Hgz & Hbz & Hzip).
  fold lower in Hgz, Hbz, Hzip.
  apply list_elem_of_In in Hext. simpl in Hext.
  destruct Hext as [<-|[<-|[<-|[<-|[<-|[]]]]]].
  - right; left. split; [by left|]. apply Hgz. by left.
  - right; left. split; [by right|]. apply Hgz. by right.
  - right; right; left. split; [done|]. by apply Hbz.
  - left. split; [done|]. unfold extractBinary. fold lower.
    rewrite (HasSuffix_exclusive lower ".tar.xz" ".tar.gz") by done.
    rewrite (HasSuffix_exclusive lower ".tar.xz" ".tgz") by done.
    rewrite (HasSuffix_exclusive lower ".tar.xz" ".tar.bz2") by done.
    by rewrite (HasSuffix_exclusive lower ".tar.xz" ".zip") by done.
  - right; right; right. split; [done|]. by apply Hzip.
Qed.

End SelectThenExtract.

Lemma selected_asset_extraction_witness :
  extractBinary id bytes id Ok id (λ _, tar.Entry sampleTarTool (Ok sampleData) tar.EOF)
    (λ _, Ok []) [] "tool_linux_amd64.tar.gz"
  = Ok ("tool", sampleData).
Proof.
  destruct (selected_asset_extraction id insertionSort insertionSort_sortsSlices
              bytes id Ok id (λ _, tar.Entry sampleTarTool (Ok sampleData) tar.EOF)
              (λ _, Ok []) sampleAssets "linux" "amd64"
              (mkAsset "tool_linux_amd64.tar.gz" "https://example.com/1" 10) [])
    as [[Hxz _]|[[_ Hgz]|[[Hbz _]|[Hzip _]]]].
  - vm_compute. reflexivity.
  - vm_compute in Hxz. discriminate.
  - exact Hgz.
  - vm_compute in Hbz. discriminate.
  - vm_compute in Hzip. discriminate.
Defined.

(** ** More on targets *)

Lemma hasByte_app (c : ascii) (p q : string) :
  hasByte c (p +:+ q) = hasByte c p || hasByte c q.
Proof.
  induction p as [|x p IH]; [done|].
  rewrite string_app_cons. simpl. by rewrite IH, orb_assoc.
Qed.

Lemma no_byte_before_after (c : ascii) (s : string) :
  hasByte c s = false → beforeByte c s = s ∧ afterByte c s = "".
Proof.
  induction s as [|x s IH]; simpl; [done|].
  intros [Hx Hs]%orb_false_iff. rewrite Hx. destruct (IH Hs) as [-> ->]. done.
Qed.

Lemma target_app_assoc (owner repo tag : string) :
  owner +:+ "/" +:+ repo +:+ "@" +:+ tag = (owner +:+ "/" +:+ repo) +:+ String "@" tag.
Proof. by rewrite !string_app_assoc. Qed.

(** The shape of an accepted target. *)
Lemma parseTarget_Ok_shape (s owner repo tag : string) :
  parseTarget s = Ok (owner, repo, tag) →
  owner ≠ "" ∧ repo ≠ "" ∧
  hasByte "/" owner = false ∧ hasByte "@" owner = false ∧ hasByte "@" repo = false ∧
  ((hasByte "@" s = true ∧ s = owner +:+ "/" +:+ repo +:+ "@" +:+ tag) ∨
   (hasByte "@" s = false ∧ s = owner +:+ "/" +:+ repo ∧ tag = "")).
Proof.
  intros (Hslug & -> & Ho & Hr & Hso & Hao & Har)%parseTarget_parts.
  do 5 (split; [done|]).
  destruct (hasByte "@" s) eqn:Hat.
  - left. split; [done|]. rewrite target_app_assoc, <- Hslug.
    by apply (split_at_first_byte "@" s (beforeByte "@" s) (afterByte "@" s)).
  - right. split; [done|]. destruct (no_byte_before_after "@" s Hat) as [Hb Ha].
    rewrite Ha. split; [|done]. by rewrite <- Hslug, Hb.
Qed.

(** X5. The targets [parseTarget] accepts and what it makes of them: the
    result is (owner, repo, tag) exactly when owner and repo are not empty,
    owner has neither "/" nor "@", repo has no "@", and the input is
    owner/repo@tag, or owner/repo with an empty tag. The tag is whatever
    follows the first "@" (it may hold further "@" and "/"), and formatting
    and parsing round-trip. *)
Theorem parseTarget_Ok_iff (s owner repo tag : string) :
  parseTarget s = Ok (owner, repo, tag) ↔
  owner ≠ "" ∧ repo ≠ "" ∧
  hasByte "/" owner = false ∧ hasByte "@" owner = false ∧ hasByte "@" repo = false ∧
  (s = owner +:+ "/" +:+ repo +:+ "@" +:+ tag ∨
   (s = owner +:+ "/" +:+ repo ∧ tag = "")).
Proof.
  split.
  - intros (? & ? & ? & ? & ? & Hs)%parseTarget_Ok_shape.
    do 5 (split; [done|]). destruct Hs as [[_ ?]|[_ ?]]; [by left|by right].
  - intros (Ho & Hr & Hso & Hao & Har & Hs).
    assert (hasByte "@" (owner +:+ "/" +:+ repo) = false) as Hno.
    { rewrite !hasByte_app, Hao, Har. done. }
    assert (beforeByte "@" s = owner +:+ "/" +:+ repo ∧ afterByte "@" s = tag) as [Hb Ha].
    { destruct Hs as [->| [-> ->]].
      - rewrite target_app_assoc.
        by destruct (proj1 (split_at_first_byte "@" _ (owner +:+ "/" +:+ repo) tag)
                       (conj eq_refl Hno)) as (_ & <- & <-).
      - by apply no_byte_before_after. }
    rewrite parseTarget_eq. simpl. rewrite Hb, Ha.
    destruct (proj1 (split_at_first_byte "/" (owner +:+ "/" +:+ repo) owner repo))
      as (Hhas & <- & <-); [done|].
    rewrite Hhas. apply String.eqb_neq in Ho, Hr. by rewrite Ho, Hr.
Qed.

Lemma parseTarget_v0_eq (s : string) :
  parseTarget_v0 s =
  if hasByte "/" s
     && negb (String.eqb (beforeByte "/" s) "")
     && negb (String.eqb (afterByte "/" s) "")
  then Ok (beforeByte "/" s, afterByte "/" s)
  else Err (InvalidTarget s).
Proof.
  unfold parseTarget_v0. rewrite (SplitN_2_byte "/").
  destruct (hasByte "/" s); [|done]. simpl.
  destruct (String.eqb (beforeByte "/" s) ""); [done|].
  by destruct (String.eqb (afterByte "/" s) "").
Qed.

(** X6. The parser with versions extends the first parser: a target without
    "@" is parsed by both alike (same owner and repo, or rejected by both),
    and every target the later parser accepts was accepted by the first
    one, which left "@tag" in the repository name. *)
Theorem parseTarget_extends_v0 (s : string) :
  (hasByte "@" s = false →
   match parseTarget s with
   | Ok (owner, repo, tag) => parseTarget_v0 s = Ok (owner, repo) ∧ tag = ""
   | Err e => parseTarget_v0 s = Err e
   end) ∧
  (∀ owner repo tag,
     parseTarget s = Ok (owner, repo, tag) → hasByte "@" s = true →
     parseTarget_v0 s = Ok (owner, repo +:+ "@" +:+ tag)).
Proof.
  split.
  - intros Hat. destruct (no_byte_before_after "@" s Hat) as [Hb Ha].
    rewrite parseTarget_eq, parseTarget_v0_eq. simpl. rewrite Hb, Ha.
    by destruct (_ && _).
  - intros owner repo tag (Ho & Hr & Hso & _ & _ & Hs)%parseTarget_Ok_shape Hat.
    destruct Hs as [[_ ->]|[Hno _]]; [|congruence].
    rewrite parseTarget_v0_eq.
    destruct (proj1 (split_at_first_byte "/" (owner +:+ "/" +:+ repo +:+ "@" +:+ tag)
                       owner (repo +:+ "@" +:+ tag)) (conj eq_refl Hso))
      as (Hhas & <- & <-).
    rewrite Hhas. apply String.eqb_neq in Ho. rewrite Ho. simpl.
    destruct (String.eqb (repo +:+ "@" +:+ tag) "") eqn:He; [|done].
    apply String.eqb_eq in He. destruct repo; [done|]. by rewrite string_app_cons in He.
Qed.

Lemma parseTarget_extends_v0_witness :
  parseTarget_v0 "junegunn/fzf@v0.54.0" = Ok ("junegunn", "fzf" +:+ "@" +:+ "v0.54.0") ∧
  parseTarget_v0 "junegunn/fzf" = Ok ("junegunn", "fzf") ∧ "" = "".
Proof.
  split.
  - apply (proj2 (parseTarget_extends_v0 "junegunn/fzf@v0.54.0") "junegunn" "fzf" "v0.54.0");
      reflexivity.
  - apply (proj1 (parseTarget_extends_v0 "junegunn/fzf")). reflexivity.
Defined.

Example parseTarget_v0_examples :
  parseTarget_v0 "junegunn/fzf" = Ok ("junegunn", "fzf") ∧
  parseTarget_v0 "junegunn/fzf@v0.54.0" = Ok ("junegunn", "fzf@v0.54.0") ∧
  parseTarget_v0 "a@b/c" = Ok ("a@b", "c") ∧
  parseTarget "a@b/c" = Err (InvalidTarget "a@b/c").
Proof. repeat split. Qed.

(** ** More on the extractor *)

Lemma findInTar_Entry (hdr : tar.Header) (body : result bytes) (rest : tar.Reader) :
  findInTar (tar.Entry hdr body rest) =
  if negb (Ascii.eqb (tar.Typeflag hdr) tar.TypeReg)
     || (Z.land (tar.FileInfoPerm hdr) execBits =? 0)
  then findInTar rest
  else match body with
       | Err e => Err e
       | Ok data => Ok (GoFilepath.Base (tar.Name hdr), data)
       end.
Proof. reflexivity. Qed.

(** Every reader is a run of entries that [findInTar] skips, followed by the
    end of the stream, a failure of [Next], or an executable entry. *)
Lemma tar_reader_split (tr : tar.Reader) :
  ∃ skipped, Forall (λ e, ¬ tarExecutable e.1) skipped ∧
    (tr = tarPrepend skipped tar.EOF ∨
     (∃ e, tr = tarPrepend skipped (tar.Fail e)) ∨
     (∃ hdr body rest, tarExecutable hdr ∧ tr = tarPrepend skipped (tar.Entry hdr body rest))).
Proof.
  induction tr as [|e|hdr body rest (skipped & Hskip & IH)].
  - exists []. split; [constructor|]. by left.
  - exists []. split; [constructor|]. right; left. by exists e.
  - destruct (negb (Ascii.eqb (tar.Typeflag hdr) tar.TypeReg)
              || (Z.land (tar.FileInfoPerm hdr) execBits =? 0)) eqn:Htest.
    + exists ((hdr, body) :: skipped). split.
      * constructor; [|done]. simpl. intros Hx%tar_skip_test. congruence.
      * simpl. destruct IH as [->|[[e ->]|(h & b & r & Hx & ->)]]; [by left| |].
        -- right; left. by exists e.
        -- right; right. by exists h, b, r.
    + exists []. split; [constructor|]. right; right.
      exists hdr, body, rest. split; [by apply tar_skip_test|done].
Qed.

(** X7. [findInTar] succeeds only in the way of C3: it returns a name and a
    content exactly when the stream is a run of entries that are not
    executable regular files, followed by an executable regular file whose
    body was read in full; the name is the base name of that entry and the
    content its body. What follows the entry in the stream has no say. *)
Theorem findInTar_Ok_iff (tr : tar.Reader) (name : string) (data : bytes) :
  findInTar tr = Ok (name, data) ↔
  ∃ skipped hdr rest,
    tr = tarPrepend skipped (tar.Entry hdr (Ok data) rest) ∧
    Forall (λ e, ¬ tarExecutable e.1) skipped ∧
    tarExecutable hdr ∧ name = GoFilepath.Base (tar.Name hdr).
Proof.
  split.
  - destruct (tar_reader_split tr) as (skipped & Hskip & [->|[[e ->]|(h & b & r & Hx & ->)]]);
      rewrite findInTar_skips by done; simpl; try done.
    rewrite (proj2 (tar_skip_test h) Hx). destruct b as [d|e]; [|done].
    intros [= <- <-]. by exists skipped, h, r.
  - intros (skipped & hdr & rest & -> & Hskip & Hx & ->).
    rewrite findInTar_skips by done. simpl. by rewrite (proj2 (tar_skip_test hdr) Hx).
Qed.

(** X8. The failures of [findInTar]: it returns the error [e] exactly when,
    after a run of entries that are not executable regular files, the
    stream ends (and [e] is [NoExecutable]), or [Next] fails with [e], or
    the body of the first executable regular file cannot be read, with
    error [e]. In the last case the entries that follow are not tried, and
    the bodies of skipped entries are never read. *)
Theorem findInTar_Err_iff (tr : tar.Reader) (e : error) :
  findInTar tr = Err e ↔
  ∃ skipped, Forall (λ x, ¬ tarExecutable x.1) skipped ∧
    ((tr = tarPrepend skipped tar.EOF ∧ e = NoExecutable) ∨
     tr = tarPrepend skipped (tar.Fail e) ∨
     (∃ hdr rest, tarExecutable hdr ∧
                  tr = tarPrepend skipped (tar.Entry hdr (Err e) rest))).
Proof.
  split.
  - destruct (tar_reader_split tr) as (skipped & Hskip & [->|[[e' ->]|(h & b & r & Hx & ->)]]);
      rewrite findInTar_skips by done; simpl.
    + intros [= <-]. exists skipped. split; [done|]. by left.
    + intros [= <-]. exists skipped. split; [done|]. by right; left.
    + rewrite (proj2 (tar_skip_test h) Hx). destruct b as [d|e']; [done|].
      intros [= <-]. exists skipped. split; [done|]. right; right. by exists h, r.
  - intros (skipped & Hskip & [[-> ->]|[->|(hdr & rest & Hx & ->)]]);
      rewrite findInTar_skips by done; simpl; try done.
    by rewrite (proj2 (tar_skip_test hdr) Hx).
Qed.

Example findInTar_unreadable_body :
  findInTar (tarPrepend sampleTarSkipped
               (tar.Entry sampleTarTool (Err (LibraryError "unexpected EOF"))
                  (tar.Entry sampleTarTool (Ok sampleData) tar.EOF)))
  = Err (LibraryError "unexpected EOF").
Proof. reflexivity. Qed.

(** The entries of a zip listing up to the first one with a property that
    the scan can test. *)
Lemma list_first_split {A} (P : A → Prop) {Hdec : ∀ x, Decision (P x)} (l : list A) :
  (∃ pre x post, l = pre ++ x :: post ∧ Forall (λ y, ¬ P y) pre ∧ P x) ∨
  Forall (λ y, ¬ P y) l.
Proof.
  induction l as [|a l IH]; [right; constructor|].
  destruct (decide (P a)) as [Ha|Ha].
  - left. exists [], a, l. split; [done|]. split; [constructor|done].
  - destruct IH as [(pre & x & post & -> & Hpre & Hx)|Hall].
    + left. exists (a :: pre), x, post. split; [done|]. split; [by constructor|done].
    + right. by constructor.
Qed.

Lemma hasExecBit_dec (mode : Z) : Decision (hasExecBit mode).
Proof. unfold hasExecBit. apply _. Qed.

Lemma zipExecutable_dec (f : zip.File) : Decision (zipExecutable f).
Proof. unfold zipExecutable. pose proof (hasExecBit_dec (zip.Mode f)). apply _. Qed.

Lemma zipExtensionless_dec (f : zip.File) : Decision (zipExtensionless f).
Proof. unfold zipExtensionless. apply _. Qed.

(** X9. The three cases of C2 are all there is: on any listing, the scan of
    [findInZip] ends with the payload of the first executable entry, or,
    when no entry is executable, with the payload of the first
    extensionless entry, or, when there is neither, with [NoExecutable].
    So it never returns a directory, nor an entry that has an extension and
    no execute bit, and an error other than [NoExecutable] is the error of
    reading the entry settled on: no other entry is tried after it. *)
Theorem findInZipFiles_exhaustive (files : list zip.File) :
  (∃ pre f post, files = pre ++ f :: post ∧
     Forall (λ g, ¬ zipExecutable g) pre ∧ zipExecutable f ∧
     findInZipFiles files None = zipPayload f) ∨
  (Forall (λ g, ¬ zipExecutable g) files ∧
   ∃ pre f post, files = pre ++ f :: post ∧
     Forall (λ g, ¬ zipExtensionless g) pre ∧ zipExtensionless f ∧
     findInZipFiles files None = zipPayload f) ∨
  (Forall (λ g, ¬ zipExecutable g ∧ ¬ zipExtensionless g) files ∧
   findInZipFiles files None = Err NoExecutable).
Proof.
  destruct (list_first_split zipExecutable (Hdec := zipExecutable_dec) files)
    as [(pre & f & post & -> & Hpre & Hf)|Hnox].
  { left. exists pre, f, post. do 3 (split; [done|]).
    by apply findInZipFiles_executable. }
  right.
  destruct (list_first_split zipExtensionless (Hdec := zipExtensionless_dec) files)
    as [(pre & f & post & -> & Hpre & Hf)|Hnoe].
  - left. split; [done|]. exists pre, f, post. do 3 (split; [done|]).
    by apply findInZipFiles_extensionless.
  - right. assert (Forall (λ g, ¬ zipExecutable g ∧ ¬ zipExtensionless g) files) as Hall.
    { apply Forall_forall. intros g Hg. split.
      - by apply (proj1 (Forall_forall _ _) Hnox).
      - by apply (proj1 (Forall_forall _ _) Hnoe). }
    split; [done|]. by apply findInZipFiles_none.
Qed.

(** *** Base names and extensions *)

Lemma hasByte_list (c : ascii) (s : string) :
  hasByte c s = false ↔ Forall (λ x, x ≠ c) (String.list_ascii_of_string s).
Proof.
  induction s as [|x s IH]; simpl; [by split; [constructor|]|].
  rewrite orb_false_iff, IH, Forall_cons, Ascii.eqb_neq. done.
Qed.

Lemma lastElement_no_separator (r : list ascii) :
  Forall (λ x, x ≠ "/"%char) (GoFilepath.lastElement r).
Proof.
  induction r as [|c r IH]; simpl; [constructor|].
  unfold GoFilepath.IsPathSeparator. destruct (Ascii.eqb c "/") eqn:Hc; [constructor|].
  constructor; [by apply Ascii.eqb_neq|done].
Qed.

(** [filepath.Base] returns "/" or a name that is not empty and holds no
    separator. *)
Lemma Base_plain (p : string) :
  GoFilepath.Base p ≠ "" ∧
  (GoFilepath.Base p = "/" ∨ hasByte "/" (GoFilepath.Base p) = false).
Proof.
  unfold GoFilepath.Base. destruct p as [|c p]; [split; [done|by right]|].
  set (stripped := GoFilepath.dropSeparators _).
  pose proof (Forall_rev (lastElement_no_separator stripped)) as Hno.
  destruct (rev (GoFilepath.lastElement stripped)) as [|a l]; [split; [done|by left]|].
  split; [done|]. right. apply hasByte_list.
  by rewrite String.list_ascii_of_string_of_list_ascii.
Qed.

Lemma extScan_nil (r acc : list ascii) :
  Forall (λ x, x ≠ "/"%char) r →
  GoFilepath.extScan r acc = [] ↔ Forall (λ x, x ≠ "."%char) r.
Proof.
  intros Hr. revert acc. induction Hr as [|c r Hc _ IH]; intros acc; simpl.
  - split; [constructor|done].
  - unfold GoFilepath.IsPathSeparator. apply Ascii.eqb_neq in Hc. rewrite Hc.
    destruct (Ascii.eqb c ".") eqn:Hd.
    + apply Ascii.eqb_eq in Hd. split; [done|]. by intros [? _]%Forall_cons.
    + apply Ascii.eqb_neq in Hd. rewrite IH, Forall_cons. tauto.
Qed.

Lemma string_of_list_ascii_nil (l : list ascii) :
  String.string_of_list_ascii l = "" ↔ l = [].
Proof. destruct l; simpl; split; done. Qed.

Lemma Ext_empty (s : string) :
  hasByte "/" s = false → GoFilepath.Ext s = "" ↔ hasByte "." s = false.
Proof.
  intros Hs%hasByte_list. unfold GoFilepath.Ext.
  rewrite string_of_list_ascii_nil, extScan_nil by by apply Forall_rev.
  rewrite hasByte_list. split; intros H%Forall_rev; [by rewrite rev_involutive in H|done].
Qed.

(** X10. The fallback test of [findInZip], [filepath.Ext(base) == ""], holds
    exactly when the base name of the entry holds no dot at all: an entry
    named after a version (tool-1.2.3), a hidden file (.profile) and a name
    that ends in a dot all count as having an extension, and are never the
    fallback. *)
Theorem zipNoExt_iff_no_dot (f : zip.File) :
  zipNoExt f = true ↔ hasByte "." (GoFilepath.Base (zip.Name f)) = false.
Proof.
  rewrite zipNoExt_spec.
  destruct (Base_plain (zip.Name f)) as [_ [->|Hplain]]; [done|].
  by apply Ext_empty.
Qed.

Example zip_versioned_name_is_no_fallback :
  findInZipFiles [zip.mkFile "dist/tool-1.2.3" 420 (Ok sampleData)] None = Err NoExecutable ∧
  findInZipFiles [zip.mkFile "dist/tool-1_2_3" 420 (Ok sampleData)] None
  = Ok ("tool-1_2_3", sampleData).
Proof. split; reflexivity. Qed.

Lemma findInTar_Ok_name (tr : tar.Reader) (name : string) (data : bytes) :
  findInTar tr = Ok (name, data) → ∃ hdr, name = GoFilepath.Base (tar.Name hdr).
Proof.
  induction tr as [| |hdr body rest IH]; [done|done|].
  rewrite findInTar_Entry. destruct (_ || _); [exact IH|].
  destruct body; [|done]. intros [= <- _]. by exists hdr.
Qed.

Lemma findInZipFiles_Ok_name (files : list zip.File) (fallback : option zip.File)
    (name : string) (data : bytes) :
  findInZipFiles files fallback = Ok (name, data) →
  ∃ f, name = GoFilepath.Base (zip.Name f).
Proof.
  revert fallback. induction files as [|f files IH]; intros fallback; simpl.
  - destruct fallback as [fb|]; [|done]. unfold readZipFile.
    destruct (zip.Content fb); [|done]. intros [= <- _]. by exists fb.
  - destruct (zip.IsDir f); [apply IH|].
    destruct (zipIsExec f); simpl.
    + unfold readZipFile. destruct (zip.Content f); [|done]. intros [= <- _]. by exists f.
    + destruct (zipNoExt f); apply IH.
Qed.

Section ExtractorFurther.
Variable unicodeLower : string → string.
Variable io_Reader : Type.
Variable bytes_NewReader : bytes → io_Reader.
Variable gzip_NewReader : io_Reader → result io_Reader.
Variable bzip2_NewReader : io_Reader → io_Reader.
Variable tar_NewReader : io_Reader → tar.Reader.
Variable zip_NewReader : bytes → result (list zip.File).

(** X11. What [extractBinary] takes out of an archive is named by a base
    name: when the lowercased artifact name ends in .tar.gz, .tgz, .tar.bz2
    or .zip and extraction succeeds, the name returned is not empty, and
    holds no path separator unless it is "/" itself, whatever the paths of
    the entries of the archive are. *)
Theorem extractBinary_archive_name (data : bytes) (assetName ext name : string)
    (out : bytes) :
  ext ∈ [".tar.gz"; ".tgz"; ".tar.bz2"; ".zip"] →
  GoStrings.HasSuffix (GoStrings.ToLower unicodeLower assetName) ext = true →
  extractBinary unicodeLower io_Reader bytes_NewReader gzip_NewReader bzip2_NewReader
    tar_NewReader zip_NewReader data assetName = Ok (name, out) →
  name ≠ "" ∧ (name = "/" ∨ hasByte "/" name = false).
Proof.
  intros Hext Hsuf.
  pose proof (extractBinary_dispatch unicodeLower io_Reader bytes_NewReader gzip_NewReader
                bzip2_NewReader tar_NewReader zip_NewReader data assetName)
    as (Hgz & Hbz & Hzip).
  assert (∀ f, name = GoFilepath.Base f → name ≠ "" ∧ (name = "/" ∨ hasByte "/" name = false))
    as Hbase by (intros f ->; apply Base_plain).
  apply list_elem_of_In in Hext. simpl in Hext.
  destruct Hext as [<-|[<-|[<-|[<-|[]]]]].
  - rewrite Hgz by by left. destruct (gzip_NewReader _); [|done].
    intros [hdr ->]%findInTar_Ok_name. by eapply Hbase.
  - rewrite Hgz by by right. destruct (gzip_NewReader _); [|done].
    intros [hdr ->]%findInTar_Ok_name. by eapply Hbase.
  - rewrite Hbz by done. intros [hdr ->]%findInTar_Ok_name. by eapply Hbase.
  - rewrite Hzip by done. unfold findInZip. destruct (zip_NewReader data); [|done].
    intros [f ->]%findInZipFiles_Ok_name. by eapply Hbase.
Qed.

End ExtractorFurther.

Lemma extractBinary_archive_name_witness :
  "tool" ≠ "" ∧ ("tool" = "/" ∨ hasByte "/" "tool" = false).
Proof.
  apply (extractBinary_archive_name id bytes id Ok id
           (λ _, tarPrepend sampleTarSkipped (tar.Entry sampleTarTool (Ok sampleData) tar.EOF))
           (λ _, Ok []) sampleData "Tool_Linux_amd64.TAR.GZ" ".tar.gz" "tool" sampleData).
  - apply list_elem_of_here.
  - reflexivity.
  - reflexivity.
Defined.

(** ** From install to purge: the names of version directories *)



(** ** More on purge *)

Lemma ReadDir_Ok_dir (dir : path) (w w' : World) (entries : list os.DirEntry) :
  os.ReadDir dir w = (Ok entries, w') → ∃ t, fs w !! dir = Some (Dir t).
Proof.
  unfold os.ReadDir. destruct (fs w !! dir) as [[t| |]|]; try done. by exists t.
Qed.

Lemma not_prefix_of_parent (dir : path) (name : string) :
  ¬ (dir ++ [name]) `prefix_of` dir.
Proof. intros Hp%prefix_length. rewrite length_app in Hp. simpl in Hp. lia. Qed.

Lemma StronglySorted_weaken {A} (R R' : A → A → Prop) (l : list A) :
  (∀ x y, R x y → R' x y) → StronglySorted R l → StronglySorted R' l.
Proof.
  intros HR. induction 1 as [|x l _ IH Hx]; constructor; [done|].
  eapply Forall_impl; [exact Hx|]. intros y. apply HR.
Qed.

Section PurgeFurther.
Variable sort_Slice : ∀ A : Type, (A → A → bool) → list A → list A.
Hypothesis sort_Slice_contract : sortsSlices sort_Slice.

Lemma purge_Ok_ReadDir (baseDir : path) (owner repo : string) (w w' : World) :
  purge sort_Slice baseDir owner repo w = (Ok (), w') →
  ∃ entries, os.ReadDir (baseDir ++ ["ghinst"; owner]) w = (Ok entries, w).
Proof.
  unfold purge, ioBind.
  destruct (os.ReadDir _ w) as [[entries|e] w0] eqn:Hrd; [|done].
  intros _. exists entries. by apply ReadDir_Ok in Hrd as [-> _].
Qed.

Lemma purge_noop (baseDir : path) (owner repo : string) (w : World)
    (entries : list os.DirEntry) :
  os.ReadDir (baseDir ++ ["ghinst"; owner]) w = (Ok entries, w) →
  (length (filter (λ e, isVersionOf repo e = true) entries) ≤ 1)%nat →
  purge sort_Slice baseDir owner repo w = (Ok (), w).
Proof.
  intros Hrd Hle. unfold purge, ioBind. rewrite Hrd.
  by rewrite (proj2 (Nat.leb_le _ _) Hle).
Qed.

(** A run of [purge] that removes something: the versions, oldest first,
    all but the last removed and reported. *)
Lemma purge_run (baseDir : path) (owner repo : string) (w : World)
    (entries : list os.DirEntry) :
  let ownerDir := baseDir ++ ["ghinst"; owner] in
  let vs := filter (λ e, isVersionOf repo e = true) entries in
  os.ReadDir ownerDir w = (Ok entries, w) →
  (1 < length vs)%nat →
  ∃ init kept w',
    purge sort_Slice baseDir owner repo w = (Ok (), w') ∧
    init ++ [kept] ≡ₚ vs ∧
    StronglySorted (λ x y, olderThan y x = false) (init ++ [kept]) ∧
    stdout w' = stdout w ++ (purgedLine owner <$> init) ∧
    ∀ q, (Exists (λ v, (ownerDir ++ [os.Name v]) `prefix_of` q) init →
          fs w' !! q = None) ∧
         (¬ Exists (λ v, (ownerDir ++ [os.Name v]) `prefix_of` q) init →
          fs w' !! q = fs w !! q).
Proof.
  intros ownerDir vs Hrd Hgt.
  destruct (sort_Slice_contract os.DirEntry olderThan vs) as [_ Hsorted].
  specialize (Hsorted olderThan_StrictWeakOrder).
  destruct (sorted_versions_last sort_Slice sort_Slice_contract vs Hgt)
    as (init & kept & Hs & Htake & Hperm & _).
  destruct (purgeEach_spec owner ownerDir init w) as (w' & Hrun & Hout & Hfs).
  exists init, kept, w'. rewrite Hs in Hsorted. split; [|done].
  unfold purge, ioBind. fold ownerDir. rewrite Hrd. fold vs.
  rewrite (proj2 (Nat.leb_gt _ _) Hgt). by rewrite Htake.
Qed.

(** X13. What [purge] prints: a successful run appends to standard output
    one line, "purged owner/name", for each directory it removed, and
    nothing else; the directories it removed are version directories of
    the repository, each reported once, in the order of their modification
    times, oldest first. *)
Theorem purge_reports_removed (baseDir : path) (owner repo : string) (w w' : World) :
  let ownerDir := baseDir ++ ["ghinst"; owner] in
  purge sort_Slice baseDir owner repo w = (Ok (), w') →
  ∃ removed : list os.DirEntry,
    stdout w' = stdout w ++ ((λ v, "purged " +:+ owner +:+ "/" +:+ os.Name v +:+ newline)
                               <$> removed) ∧
    NoDup (os.Name <$> removed) ∧
    StronglySorted (λ x y, os.ModTime (os.Info x) ≤ os.ModTime (os.Info y)) removed ∧
    ∀ v, v ∈ removed ↔
         os.IsDir v = true ∧
         versionDir w ownerDir repo (os.Name v) (os.ModTime (os.Info v)) ∧
         fs w' !! (ownerDir ++ [os.Name v]) = None.
Proof.
  intros ownerDir Hpurge.
  destruct (purge_Ok_ReadDir _ _ _ _ _ Hpurge) as [entries Hrd]. fold ownerDir in Hrd.
  pose proof (ReadDir_Ok _ _ _ _ Hrd) as (_ & Hnodup & _).
  pose proof (λ e, versions_spec ownerDir repo w entries e Hrd) as Hvs.
  set (vs := filter (λ e, isVersionOf repo e = true) entries) in *.
  assert (NoDup (os.Name <$> vs)) as Hvsnd.
  { eapply sublist_NoDup; [exact Hnodup|]. apply fmap_sublist, sublist_filter. }
  destruct (Nat.le_gt_cases (length vs) 1) as [Hle|Hgt].
  - rewrite (purge_noop baseDir owner repo w entries Hrd Hle) in Hpurge.
    injection Hpurge as <-. exists []. simpl. rewrite app_nil_r.
    split; [done|]. split; [constructor|]. split; [constructor|].
    intros v. split; [by intros ?%elem_of_nil|].
    intros (_ & [Hdir _] & Hgone). congruence.
  - destruct (purge_run baseDir owner repo w entries Hrd Hgt)
      as (init & kept & w1 & Hrun & Hperm & Hsorted & Hout & Hfs).
    rewrite Hrun in Hpurge. injection Hpurge as <-.
    change (init ++ [kept] ≡ₚ vs) in Hperm. fold ownerDir in Hfs.
    assert (NoDup (os.Name <$> init ++ [kept])) as Hnd by by rewrite Hperm.
    rewrite fmap_app in Hnd. apply NoDup_app in Hnd as (Hinit & Hdisj & _).
    assert (∀ v, v ∈ vs ↔ v ∈ init ∨ v = kept) as Hsplit.
    { intros v. rewrite <- Hperm, elem_of_app, list_elem_of_singleton. done. }
    exists init. split; [exact Hout|]. split; [done|]. split.
    { apply StronglySorted_app in Hsorted as (_ & Hsorted & _).
      eapply StronglySorted_weaken; [|exact Hsorted].
      intros x y. unfold olderThan. by rewrite Z.ltb_ge. }
    intros v. split.
    + intros Hv. assert (v ∈ vs) as [Hd Hvd]%Hvs by (apply Hsplit; by left).
      split; [done|]. split; [done|]. apply (Hfs _). apply Exists_exists. by exists v.
    + intros (Hd & Hvd & Hgone).
      assert (v ∈ vs) as [Hv| ->]%Hsplit by (by apply Hvs); [done|]. exfalso.
      destruct Hvd as [Hdir _]. rewrite (proj2 (Hfs _)) in Hgone; [congruence|].
      intros (u & Hu & Hpre%prefix_app_inv%prefix_cons_inv_1)%Exists_exists.
      apply (Hdisj (os.Name u)).
      * apply list_elem_of_fmap. eauto.
      * rewrite Hpre. apply list_elem_of_here.
Qed.

(** X14. [purge] is idempotent: in the world that a successful run leaves
    behind, a second run succeeds, removes nothing and prints nothing. *)
Theorem purge_idempotent (baseDir : path) (owner repo : string) (w w' : World) :
  purge sort_Slice baseDir owner repo w = (Ok (), w') →
  purge sort_Slice baseDir owner repo w' = (Ok (), w').
Proof.
  intros Hpurge. set (ownerDir := baseDir ++ ["ghinst"; owner]).
  destruct (purge_Ok_ReadDir _ _ _ _ _ Hpurge) as [entries Hrd]. fold ownerDir in Hrd.
  pose proof (ReadDir_Ok _ _ _ _ Hrd) as (_ & Hnodup & _).
  pose proof (λ n t, versionDir_entry ownerDir repo n t w entries Hrd) as Hentry.
  set (vs := filter (λ e, isVersionOf repo e = true) entries) in *.
  destruct (Nat.le_gt_cases (length vs) 1) as [Hle|Hgt].
  { rewrite (purge_noop baseDir owner repo w entries Hrd Hle) in Hpurge.
    injection Hpurge as <-. by apply (purge_noop _ _ _ _ entries). }
  destruct (purge_run baseDir owner repo w entries Hrd Hgt)
    as (init & kept & w1 & Hrun & Hperm & _ & _ & Hfs).
  rewrite Hrun in Hpurge. injection Hpurge as <-.
  change (init ++ [kept] ≡ₚ vs) in Hperm. fold ownerDir in Hfs.
  destruct (ReadDir_Ok_dir _ _ _ _ Hrd) as [t0 Hdir].
  assert (fs w1 !! ownerDir = Some (Dir t0)) as Hdir1.
  { rewrite (proj2 (Hfs ownerDir)); [done|].
    intros (u & _ & Hpre)%Exists_exists. by apply not_prefix_of_parent in Hpre. }
  destruct (ReadDir_is_Ok ownerDir w1 t0 Hdir1) as [entries1 Hrd1].
  apply (purge_noop _ _ _ _ entries1 Hrd1).
  pose proof (ReadDir_Ok _ _ _ _ Hrd1) as (_ & Hnodup1 & _).
  apply (NoDup_fmap_length_le_1 os.Name).
  { eapply sublist_NoDup; [exact Hnodup1|]. apply fmap_sublist, sublist_filter. }
  assert (∀ x, x ∈ filter (λ e, isVersionOf repo e = true) entries1 →
               os.Name x = os.Name kept) as Hkept;
    [|intros x y Hx Hy; by rewrite (Hkept x Hx), (Hkept y Hy)].
  intros x [_ [Hx Hname]]%(versions_spec ownerDir repo w1 entries1 x Hrd1).
  assert (¬ Exists (λ v, (ownerDir ++ [os.Name v]) `prefix_of` (ownerDir ++ [os.Name x])) init)
    as Hnot.
  { intros Hex. apply (Hfs _) in Hex. congruence. }
  rewrite (proj2 (Hfs _) Hnot) in Hx.
  assert (os.mkDirEntry (os.Name x) true (os.mkFileInfo (os.ModTime (os.Info x))) ∈ vs)
    as Hin by (by apply Hentry).
  rewrite <- Hperm, elem_of_app, list_elem_of_singleton in Hin.
  destruct Hin as [Hin| <-]; [|done].
  exfalso. apply Hnot, Exists_exists. eexists. split; [exact Hin|done].
Qed.

End PurgeFurther.

Lemma purge_sample_run :
  purge insertionSort sampleBase "junegunn" "fzf" purgeWorld = (Ok (), purgedWorld.2).
Proof.
  pose proof (proj1 purge_two_versions) as Hok. unfold purgedWorld in *.
  destruct (purge insertionSort sampleBase "junegunn" "fzf" purgeWorld) as [r w'].
  simpl in *. by rewrite Hok.
Qed.

Lemma purge_reports_removed_witness :
  ∃ removed : list os.DirEntry,
    stdout purgedWorld.2
    = stdout purgeWorld ++ ((λ v, "purged " +:+ "junegunn" +:+ "/" +:+ os.Name v +:+ newline)
                              <$> removed) ∧
    NoDup (os.Name <$> removed) ∧
    StronglySorted (λ x y, os.ModTime (os.Info x) ≤ os.ModTime (os.Info y)) removed ∧
    ∀ v, v ∈ removed ↔
         os.IsDir v = true ∧
         versionDir purgeWorld sampleOwnerDir "fzf" (os.Name v) (os.ModTime (os.Info v)) ∧
         fs purgedWorld.2 !! (sampleOwnerDir ++ [os.Name v]) = None.
Proof.
  apply (purge_reports_removed insertionSort insertionSort_sortsSlices
           sampleBase "junegunn" "fzf" purgeWorld purgedWorld.2).
  exact purge_sample_run.
Defined.

Lemma purge_idempotent_witness :
  purge insertionSort sampleBase "junegunn" "fzf" purgedWorld.2 = (Ok (), purgedWorld.2).
Proof.
  apply (purge_idempotent insertionSort insertionSort_sortsSlices
           sampleBase "junegunn" "fzf" purgeWorld purgedWorld.2).
  exact purge_sample_run.
Defined.

(** ** Install, then purge *)

Lemma prefix_of_app_same (base a b : path) :
  (base ++ a) `prefix_of` (base ++ b) ↔ a `prefix_of` b.
Proof. split; [apply prefix_app_inv|apply prefix_app]. Qed.

Section InstallThenPurge.
Variable sort_Slice : ∀ A : Type, (A → A → bool) → list A → list A.
Hypothesis sort_Slice_contract : sortsSlices sort_Slice.
Variable handle : Type.
Variable handlePath : handle → path.
Variable os_MkdirAll : path → Z → IO unit.
Variable os_OpenFile : path → Z → Z → IO handle.
Variable io_Copy : handle → handle → IO Z.
Variable file_Close : handle → IO unit.
Variable time_Now : IO Z.
Variable os_Chtimes : path → Z → Z → IO unit.
Variable os_Remove : path → IO unit.
Variable os_Symlink : path → path → IO unit.
Variable now : Z.
Hypothesis OS : OSContract handlePath os_MkdirAll os_OpenFile io_Copy file_Close time_Now
                  os_Chtimes os_Remove os_Symlink now.


(** The touch of the version directory, once it is made and the binary is
    opened in it: the clock reads [now], and the directory gets that time. *)
Lemma install_touched (installDir : path) (binName : string) (flag : Z) (src dst : handle)
    (w wa wb wc we : World) (rc : result Z) (rt : result Z) :
  installDir ≠ [] →
  os_MkdirAll installDir 493 w = (Ok (), wa) →
  os_OpenFile (installDir ++ [binName]) flag 493 wa = (Ok dst, wb) →
  io_Copy dst src wb = (rc, wc) →
  time_Now (file_Close dst wc).2 = (rt, we) →
  rt = Ok now ∧
  fs (os_Chtimes installDir now now we).2 = <[installDir := Dir now]> (fs wc).
Proof.
  intros Hne Hmk Hopen Hcopy Hnow.
  destruct (Now_frame _ _ _ _ _ _ _ _ _ _ OS _ _ _ Hnow) as [-> Hwe]. split; [done|].
  destruct (MkdirAll_dirs _ _ _ _ _ _ _ _ _ _ OS _ _ _ _ Hmk installDir) as [ta Hda];
    [done|done|].
  destruct (OpenFile_dir _ _ _ _ _ _ _ _ _ _ OS _ _ _ _ _ _ _ _ Hopen Hda) as [tb Hdb].
  pose proof (OpenFile_name _ _ _ _ _ _ _ _ _ _ OS _ _ _ _ _ _ Hopen) as Hname.
  assert (fs we !! installDir = Some (Dir tb)) as Hde.
  { rewrite Hwe, (Close_frame _ _ _ _ _ _ _ _ _ _ OS).
    rewrite (Copy_frame _ _ _ _ _ _ _ _ _ _ OS _ _ _ _ _ Hcopy); [done|].
    rewrite Hname. intros Heq%(f_equal length). rewrite length_app in Heq. simpl in Heq. lia. }
  rewrite (Chtimes_dir _ _ _ _ _ _ _ _ _ _ OS installDir now now we tb Hde).
  by rewrite Hwe, (Close_frame _ _ _ _ _ _ _ _ _ _ OS).
Qed.

(** The statements of [installBinary] after the version directory is made:
    whatever their outcome, they change nothing outside the version
    directory and the link directory, and nothing above the link
    directory. *)
Lemma install_inner_frame (baseDir : path) (owner repo tag binName : string)
    (src : handle) (w wa w2 : World) (r2 : result path) (q : path) :
  let installDir := baseDir ++ ["ghinst"; owner; repo +:+ "@" +:+ tag] in
  let linkDir := baseDir ++ ["bin"] in
  os_MkdirAll installDir 493 w = (Ok (), wa) →
  (do dst <- os_OpenFile (installDir ++ [binName]) O_CREATE_WRONLY_TRUNC 493;
   installInto handle os_MkdirAll io_Copy file_Close time_Now os_Chtimes os_Remove
     os_Symlink baseDir installDir (installDir ++ [binName]) binName dst src) wa = (r2, w2) →
  ¬ installDir `prefix_of` q → ¬ q `prefix_of` linkDir → ¬ linkDir `prefix_of` q →
  fs w2 !! q = fs wa !! q.
Proof.
  intros installDir linkDir Hmk Hrun Hq2 Hq3 Hq4. revert Hrun. unfold ioBind at 1.
  destruct (os_OpenFile (installDir ++ [binName]) O_CREATE_WRONLY_TRUNC 493 wa)
    as [rb wb] eqn:Hopen.
  pose proof (OpenFile_frame _ _ _ _ _ _ _ _ _ _ OS _ _ _ _ _ _ _ Hopen q Hq2) as Hb.
  destruct rb as [dst|e]; [|intros [= _ <-]; done].
  pose proof (OpenFile_name _ _ _ _ _ _ _ _ _ _ OS _ _ _ _ _ _ Hopen) as Hname.
  unfold installInto. fold linkDir. unfold ioBind, ioIgnore, ioRet.
  destruct (io_Copy dst src wb) as [rc wc] eqn:Hcopy.
  assert (fs wc !! q = fs wa !! q) as Hc.
  { rewrite (Copy_frame _ _ _ _ _ _ _ _ _ _ OS _ _ _ _ _ Hcopy); [done|].
    rewrite Hname. intros ->. apply Hq2. by apply prefix_app_r. }
  destruct (time_Now (file_Close dst wc).2) as [rt we] eqn:Hnow.
  destruct (install_touched installDir binName O_CREATE_WRONLY_TRUNC src dst w wa wb wc we rc rt)
    as [-> Htouch]; [by destruct baseDir|done..|].
  destruct rc as [n|e];
    [|intros [= _ <-]; by rewrite (Close_frame _ _ _ _ _ _ _ _ _ _ OS)].
  destruct (os_MkdirAll linkDir 493 (os_Chtimes installDir now now we).2)
    as [rg wg] eqn:Hmk2.
  assert (fs wg !! q = fs wa !! q) as Hg.
  { rewrite (MkdirAll_frame _ _ _ _ _ _ _ _ _ _ OS _ _ _ _ _ Hmk2) by done.
    rewrite Htouch, lookup_insert_ne; [done|]. intros <-. by apply Hq2. }
  destruct rg as [[]|e];
    [|intros [= _ <-]; by rewrite (Close_frame _ _ _ _ _ _ _ _ _ _ OS)].
  destruct (os_Symlink (installDir ++ [binName]) (linkDir ++ [binName])
              (os_Remove (linkDir ++ [binName]) wg).2) as [rs wi] eqn:Hsym.
  assert (fs wi !! q = fs wa !! q) as Hi.
  { rewrite (Symlink_frame _ _ _ _ _ _ _ _ _ _ OS _ _ _ _ _ _ Hsym) by done.
    by rewrite (Remove_frame _ _ _ _ _ _ _ _ _ _ OS) by done. }
  destruct rs as [[]|e]; intros [= _ <-]; by rewrite (Close_frame _ _ _ _ _ _ _ _ _ _ OS).
Qed.

(** X16. Whether it succeeds or fails, [installBinary] changes nothing
    outside the version directory, the link directory and the ancestors of
    the two: the other versions of the repository, the other repositories
    and the file it installs from stay as they are; that holds also for
    the clean-up of a failed run. *)
Theorem installBinary_frame (baseDir : path) (owner repo tag binName : string)
    (src : handle) (w w1 : World) (r : result path) (q : path) :
  let installDir := baseDir ++ ["ghinst"; owner; repo +:+ "@" +:+ tag] in
  let linkDir := baseDir ++ ["bin"] in
  installBinary handle os_MkdirAll os_OpenFile io_Copy file_Close time_Now os_Chtimes
    os_Remove os_Symlink baseDir owner repo tag binName src w = (r, w1) →
  ¬ q `prefix_of` installDir → ¬ installDir `prefix_of` q →
  ¬ q `prefix_of` linkDir → ¬ linkDir `prefix_of` q →
  fs w1 !! q = fs w !! q.
Proof.
  intros installDir linkDir Hrun Hq1 Hq2 Hq3 Hq4. revert Hrun.
  unfold installBinary. fold installDir.
  destruct (os_MkdirAll installDir 493 w) as [ra wa] eqn:Hmk.
  pose proof (MkdirAll_frame _ _ _ _ _ _ _ _ _ _ OS _ _ _ _ _ Hmk q Hq1) as Ha.
  destruct ra as [[]|e]; [|by intros [= _ <-]].
  destruct (ioBind _ _ wa) as [r2 w2] eqn:Hinner.
  pose proof (install_inner_frame _ _ _ _ _ _ _ _ _ _ q Hmk Hinner Hq2 Hq3 Hq4) as H2.
  destruct r2 as [linkPath|e]; intros [= _ <-]; [by rewrite H2|].
  change (fs (os.RemoveAll installDir w2).2 !! q = fs w !! q).
  by rewrite RemoveAll_lookup, decide_False, H2.
Qed.

Lemma installBinary_Ok_inv (baseDir : path) (owner repo tag binName : string)
    (src : handle) (w w1 : World) (link : path) :
  let installDir := baseDir ++ ["ghinst"; owner; repo +:+ "@" +:+ tag] in
  let binPath := installDir ++ [binName] in
  let linkDir := baseDir ++ ["bin"] in
  installBinary handle os_MkdirAll os_OpenFile io_Copy file_Close time_Now os_Chtimes
    os_Remove os_Symlink baseDir owner repo tag binName src w = (Ok link, w1) →
  ∃ wa dst wb n wc t we wg wi,
    os_MkdirAll installDir 493 w = (Ok (), wa) ∧
    os_OpenFile binPath O_CREATE_WRONLY_TRUNC 493 wa = (Ok dst, wb) ∧
    io_Copy dst src wb = (Ok n, wc) ∧
    time_Now (file_Close dst wc).2 = (Ok t, we) ∧
    os_MkdirAll linkDir 493 (os_Chtimes installDir t t we).2 = (Ok (), wg) ∧
    os_Symlink binPath (linkDir ++ [binName]) (os_Remove (linkDir ++ [binName]) wg).2
    = (Ok (), wi) ∧
    w1 = (file_Close dst wi).2 ∧ link = linkDir ++ [binName].
Proof.
  intros installDir binPath linkDir. unfold installBinary. fold installDir binPath.
  destruct (os_MkdirAll installDir 493 w) as [[[]|e] wa] eqn:Hmk; [|done].
  unfold ioBind at 1.
  destruct (os_OpenFile binPath O_CREATE_WRONLY_TRUNC 493 wa) as [[dst|e] wb] eqn:Hopen;
    [|done].
  unfold installInto. fold linkDir. unfold ioBind, ioIgnore, ioRet.
  destruct (io_Copy dst src wb) as [[n|e] wc] eqn:Hcopy; [|done].
  destruct (time_Now (file_Close dst wc).2) as [[t|e] we] eqn:Hnow; [|done].
  destruct (os_MkdirAll linkDir 493 (os_Chtimes installDir t t we).2)
    as [[[]|e] wg] eqn:Hmk2; [|done].
  destruct (os_Symlink binPath (linkDir ++ [binName])
              (os_Remove (linkDir ++ [binName]) wg).2) as [[[]|e] wi] eqn:Hsym; [|done].
  intros [= <- <-]. by exists wa, dst, wb, n, wc, t, we, wg, wi.
Qed.

Hypothesis OSW : OSWrites handlePath io_Copy os_Symlink.

(** X17. What a successful [installBinary] leaves behind, for a source file
    outside the version directory: the path it returns is
    <baseDir>/bin/<binName>; that path is a symbolic link to
    <baseDir>/ghinst/<owner>/<repo>@<tag>/<binName>; and the file there
    holds the content of the source file. *)
Theorem installBinary_installs (baseDir : path) (owner repo tag binName : string)
    (src : handle) (w w1 : World) (link : path) (ts : Z) (content : bytes) :
  let installDir := baseDir ++ ["ghinst"; owner; repo +:+ "@" +:+ tag] in
  let binPath := installDir ++ [binName] in
  fs w !! handlePath src = Some (RegularFile ts content) →
  ¬ handlePath src `prefix_of` installDir → ¬ installDir `prefix_of` handlePath src →
  installBinary handle os_MkdirAll os_OpenFile io_Copy file_Close time_Now os_Chtimes
    os_Remove os_Symlink baseDir owner repo tag binName src w = (Ok link, w1) →
  link = baseDir ++ ["bin"; binName] ∧
  (∃ t, fs w1 !! link = Some (Symlink t binPath)) ∧
  (∃ t, fs w1 !! binPath = Some (RegularFile t content)).
Proof.
  intros installDir binPath Hsrc Hs1 Hs2
    (wa & dst & wb & n & wc & t & we & wg & wi & Hmk & Hopen & Hcopy & Hnow & Hmk2 & Hsym
     & -> & ->)%installBinary_Ok_inv.
  fold installDir binPath in Hmk, Hopen, Hnow, Hmk2, Hsym.
  set (linkDir := baseDir ++ ["bin"]) in *.
  split; [unfold linkDir; by rewrite <- app_assoc|].
  rewrite !(Close_frame _ _ _ _ _ _ _ _ _ _ OS). split.
  - by apply (Symlink_makes _ _ _ OSW _ _ _ _ Hsym).
  - pose proof (OpenFile_name _ _ _ _ _ _ _ _ _ _ OS _ _ _ _ _ _ Hopen) as Hname.
    destruct (Copy_content _ _ _ OSW dst src wb n wc ts content Hcopy) as [t' Hbin].
    { rewrite (OpenFile_frame _ _ _ _ _ _ _ _ _ _ OS _ _ _ _ _ _ _ Hopen) by done.
      by rewrite (MkdirAll_frame _ _ _ _ _ _ _ _ _ _ OS _ _ _ _ _ Hmk). }
    rewrite Hname in Hbin. exists t'. rewrite <- Hbin.
    destruct (install_touched installDir binName O_CREATE_WRONLY_TRUNC src dst w wa wb wc we (Ok n) (Ok t))
      as [[= ->] Htouch]; [by destruct baseDir|done..|].
    assert (¬ linkDir `prefix_of` binPath) as Hl.
    { unfold linkDir, binPath, installDir. rewrite <- app_assoc, prefix_of_app_same.
      intros Hp%prefix_cons_inv_1. done. }
    rewrite (Symlink_frame _ _ _ _ _ _ _ _ _ _ OS _ _ _ _ _ _ Hsym) by done.
    rewrite (Remove_frame _ _ _ _ _ _ _ _ _ _ OS) by done.
    rewrite (MkdirAll_frame _ _ _ _ _ _ _ _ _ _ OS _ _ _ _ _ Hmk2).
    + rewrite Htouch, lookup_insert_ne; [done|].
      intros Heq%(f_equal length). unfold binPath in Heq.
      rewrite length_app in Heq. simpl in Heq. lia.
    + unfold linkDir, binPath, installDir. rewrite <- app_assoc, prefix_of_app_same.
      intros Hp%prefix_length. simpl in Hp. lia.
Qed.



End InstallThenPurge.

(** The sample operating-system calls meet the contract. *)

Lemma mkdirAll_frame (parent names : path) (m m' : gmap path node) (q : path) :
  mkdirAll parent names m = Ok m' →
  ¬ q `prefix_of` (parent ++ names) ∨ (length q ≤ length parent)%nat →
  m' !! q = m !! q.
Proof.
  revert parent m. induction names as [|x rest IH]; intros parent m; simpl.
  - by intros [= ->].
  - intros Hrun Hq.
    assert (q ≠ parent ++ [x]) as Hne.
    { intros ->. destruct Hq as [Hq|Hq].
      - apply Hq. apply prefix_app, prefix_cons, prefix_nil.
      - rewrite length_app in Hq. simpl in Hq. lia. }
    assert (¬ q `prefix_of` ((parent ++ [x]) ++ rest) ∨
            (length q ≤ length (parent ++ [x]))%nat) as Hq'.
    { destruct Hq as [Hq|Hq]; [left; by rewrite <- app_assoc|].
      right. rewrite length_app. lia. }
    destruct (m !! (parent ++ [x])) as [[t| |]|] eqn:Hlook; try done.
    + by rewrite (IH _ _ Hrun Hq').
    + by rewrite (IH _ _ Hrun Hq'), lookup_insert_ne.
Qed.

Lemma mkdirAll_dirs (parent names : path) (m m' : gmap path node) (q : path) :
  mkdirAll parent names m = Ok m' →
  q `prefix_of` (parent ++ names) → (length parent < length q)%nat →
  ∃ t, m' !! q = Some (Dir t).
Proof.
  revert parent m. induction names as [|x rest IH]; intros parent m; simpl.
  - intros _ Hq%prefix_length Hlen. rewrite app_nil_r in Hq. lia.
  - intros Hrun Hq Hlen.
    assert (∃ m1 t, mkdirAll (parent ++ [x]) rest m1 = Ok m' ∧
                    m1 !! (parent ++ [x]) = Some (Dir t)) as (m1 & t & Hrun1 & Hdir).
    { destruct (m !! (parent ++ [x])) as [[t| |]|] eqn:Hlook; try done.
      - by exists m, t.
      - exists (<[parent ++ [x] := Dir 0]> m), 0. split; [done|]. apply lookup_insert_eq. }
    destruct (decide (length q = length (parent ++ [x]))) as [Heq|Hneq].
    + assert (q = parent ++ [x]) as ->.
      { destruct Hq as [k1 Hk1].
        replace (parent ++ x :: rest) with ((parent ++ [x]) ++ rest) in Hk1
          by (by rewrite <- app_assoc).
        symmetry in Hk1. by apply app_inj_1 in Hk1 as [-> _]. }
      exists t. rewrite <- Hdir. apply (mkdirAll_frame _ _ _ _ _ Hrun1). by right.
    + apply (IH _ _ Hrun1); [by rewrite <- app_assoc|].
      rewrite length_app in *. simpl in *. lia.
Qed.

Lemma sample_OSContract :
  OSContract id sample_MkdirAll sample_OpenFile sample_Copy sample_Close sample_Now
    sample_Chtimes sample_Remove sample_Symlink 1700000000.
Proof.
  split.
  - intros p perm w w'. unfold sample_MkdirAll.
    destruct (mkdirAll [] p (fs w)) as [m|e] eqn:Hrun; [|done].
    intros [= <-] q Hq Hp. simpl. apply (mkdirAll_dirs _ _ _ _ _ Hrun Hp).
    destruct q; [done|simpl; lia].
  - intros p perm w r w'. unfold sample_MkdirAll.
    destruct (mkdirAll [] p (fs w)) as [m|e] eqn:Hrun; intros Heq q Hq; simplify_eq; [|done].
    simpl. apply (mkdirAll_frame _ _ _ _ _ Hrun). by left.
  - intros p flag perm w h w'. unfold sample_OpenFile.
    destruct (fs w !! _) as [[]|]; intros Heq; by simplify_eq.
  - intros dir name flag perm w r w'. unfold sample_OpenFile.
    assert (∀ q, ¬ dir `prefix_of` q → q ≠ dir ++ [name]) as Hne.
    { intros q Hq ->. apply Hq. by apply prefix_app_r. }
    destruct (fs w !! _) as [[]|]; intros Heq q Hq%Hne; simplify_eq; simpl; try done;
      by rewrite lookup_insert_ne.
  - intros dir name flag perm w h w' t. unfold sample_OpenFile.
    assert (dir ≠ dir ++ [name]) as Hne.
    { intros Heq%(f_equal length). rewrite length_app in Heq. simpl in Heq. lia. }
    destruct (fs w !! _) as [[]|]; intros Heq Hd; simplify_eq; simpl;
      exists t; by rewrite lookup_insert_ne.
  - intros dst src w r w'. unfold sample_Copy.
    destruct (fs w !! _) as [[]|]; intros Heq q Hq; simplify_eq; simpl; try done.
    by rewrite lookup_insert_ne.
  - done.
  - intros w r w' Heq. unfold sample_Now, ioRet in Heq. by simplify_eq.
  - intros p atime mtime w t Hd. unfold sample_Chtimes. by rewrite Hd.
  - intros dir name w q Hq. unfold sample_Remove. simpl.
    rewrite lookup_delete_ne; [done|]. intros <-. apply Hq. by apply prefix_app_r.
  - intros target dir name w r w'. unfold sample_Symlink.
    destruct (fs w !! _); intros Heq q Hq; simplify_eq; simpl; [done|].
    rewrite lookup_insert_ne; [done|]. intros <-. apply Hq. by apply prefix_app_r.
Qed.

Lemma upgrade_run :
  installBinary path sample_MkdirAll sample_OpenFile sample_Copy sample_Close sample_Now
    sample_Chtimes sample_Remove sample_Symlink
    sampleBase "junegunn" "fzf" "v0.55.0" "fzf" sampleSrc upgradeWorld
  = (Ok (sampleBase ++ ["bin"; "fzf"]), upgradedWorld.2).
Proof.
  assert (upgradedWorld.1 = Ok (sampleBase ++ ["bin"; "fzf"])) as Hok
    by (vm_compute; reflexivity).
  unfold upgradedWorld in *. destruct (installBinary _ _ _ _ _ _ _ _ _ _ _ _ _ _ _ _) as [r w'].
  simpl in *. by rewrite Hok.
Qed.



(** The run of the witness: the new version stays, the two older ones go. *)
Example install_then_purge_sample :
  let w2 := (purge insertionSort sampleBase "junegunn" "fzf" upgradedWorld.2).2 in
  fs w2 !! (sampleOwnerDir ++ ["fzf@v0.55.0"; "fzf"]) = Some (RegularFile 0 sampleData) ∧
  fs w2 !! (sampleOwnerDir ++ ["fzf@v0.54.0"]) = None ∧
  fs w2 !! (sampleOwnerDir ++ ["fzf@v0.53.0"]) = None ∧
  fs w2 !! (sampleOwnerDir ++ ["fzf-tmux@v1"]) = Some (Dir 300) ∧
  stdout w2 = ["purged junegunn/fzf@v0.53.0" +:+ newline;
               "purged junegunn/fzf@v0.54.0" +:+ newline].
Proof. repeat split; vm_compute; reflexivity. Qed.

Lemma sample_OSWrites : OSWrites id sample_Copy sample_Symlink.
Proof.
  split.
  - intros dst src w n w' t content. unfold sample_Copy. simpl.
    intros Heq Hsrc. rewrite Hsrc in Heq. simplify_eq. simpl.
    exists 0. apply lookup_insert_eq.
  - intros target link w w'. unfold sample_Symlink.
    destruct (fs w !! _); intros Heq; simplify_eq. simpl.
    exists 0. apply lookup_insert_eq.
Qed.

Lemma installBinary_frame_witness :
  fs upgradedWorld.2 !! (sampleOwnerDir ++ ["fzf@v0.54.0"; "fzf"])
  = fs upgradeWorld !! (sampleOwnerDir ++ ["fzf@v0.54.0"; "fzf"]).
Proof.
  apply (installBinary_frame path id sample_MkdirAll sample_OpenFile sample_Copy
           sample_Close sample_Now sample_Chtimes sample_Remove sample_Symlink
           1700000000 sample_OSContract sampleBase "junegunn" "fzf" "v0.55.0" "fzf"
           sampleSrc upgradeWorld upgradedWorld.2 (Ok (sampleBase ++ ["bin"; "fzf"]))).
  - exact upgrade_run.
  - intros [k Hk]. vm_compute in Hk. discriminate.
  - intros [k Hk]. vm_compute in Hk. discriminate.
  - intros [k Hk]. vm_compute in Hk. discriminate.
  - intros [k Hk]. vm_compute in Hk. discriminate.
Defined.

Lemma installBinary_installs_witness :
  sampleBase ++ ["bin"; "fzf"] = sampleBase ++ ["bin"; "fzf"] ∧
  (∃ t, fs upgradedWorld.2 !! (sampleBase ++ ["bin"; "fzf"])
        = Some (Symlink t ((sampleBase ++ ["ghinst"; "junegunn"; "fzf" +:+ "@" +:+ "v0.55.0"])
                             ++ ["fzf"]))) ∧
  (∃ t, fs upgradedWorld.2
          !! ((sampleBase ++ ["ghinst"; "junegunn"; "fzf" +:+ "@" +:+ "v0.55.0"]) ++ ["fzf"])
        = Some (RegularFile t sampleData)).
Proof.
  apply (installBinary_installs path id sample_MkdirAll sample_OpenFile sample_Copy
           sample_Close sample_Now sample_Chtimes sample_Remove sample_Symlink
           1700000000 sample_OSContract sample_OSWrites sampleBase "junegunn" "fzf"
           "v0.55.0" "fzf" sampleSrc upgradeWorld upgradedWorld.2
           (sampleBase ++ ["bin"; "fzf"]) 0 sampleData).
  - vm_compute. reflexivity.
  - intros [k Hk]. vm_compute in Hk. discriminate.
  - intros [k Hk]. vm_compute in Hk. discriminate.
  - exact upgrade_run.
Defined.
